(** * UartDmxThread: the DMX-over-UART output thread of OLA

    A shallow embedding of [plugins/uartdmx/UartDmxThread.cpp] and the
    properties of its pacing loop, its frame hand-off and its termination
    flag.

    The file has two layers.
    - The member functions ([CheckTimeGranularity], [WriteDMX], [Stop],
      [Run]) as programs of a small state-and-trace monad: every call that
      leaves the thread (widget, clock, [usleep], [OLA_INFO]) is recorded
      as an [Event].
    - A two-thread machine ([Machine], [step]) in which the output thread
      and the application thread interleave statement by statement, the two
      mutexes are explicit and a buffer copy is a sequence of byte writes.
      Its moves run the pieces of the first layer, and the output thread
      moving alone does in a turn what [Run_cycle] does
      ([machine_cycle]). *)

From Stdlib Require Import ZArith List Bool Lia.
Import ListNotations.
Local Open Scope Z_scope.

(** ** Data *)

(** [enum TimeGranularity { UNKNOWN, GOOD, BAD }] *)
Inductive TimeGranularity : Type := UNKNOWN | GOOD | BAD.

Definition granularity_eqb (a b : TimeGranularity) : bool :=
  match a, b with
  | UNKNOWN, UNKNOWN | GOOD, GOOD | BAD, BAD => true
  | _, _ => false
  end.

(** Modelled from the spec: [ola/DmxBuffer.h] is not part of the sources.
    A frame buffer is the ordered sequence of its channel bytes, its
    length being the length of the sequence; [DmxBuffer::Set(other)]
    makes the receiver a copy of [other]. *)
Definition DmxBuffer : Type := list Byte.byte.

Definition DmxBuffer_new : DmxBuffer := [].

Definition DmxBuffer_Set (other : DmxBuffer) (_self : DmxBuffer) : DmxBuffer :=
  other.

(** Modelled from the spec: [ola/Clock.h] is not part of the sources.
    A [TimeStamp] is a count of microseconds, a [TimeInterval] a number of
    microseconds; [TimeStamp - TimeStamp] and [TimeInterval > TimeInterval]
    are subtraction and comparison of these numbers. *)
Definition TimeStamp : Type := Z.
Definition TimeInterval : Type := Z.

Definition TimeStamp_new : TimeStamp := 0.
Definition TimeInterval_of_usec (usec : Z) : TimeInterval := usec.
Definition TimeStamp_sub (a b : TimeStamp) : TimeInterval := a - b.
Definition TimeInterval_gt (a b : TimeInterval) : bool := a >? b.

(** Modelled from the spec: [ola/Clock.h] is not part of the sources.
    The millisecond accessor of a duration gives its whole milliseconds:
    the microseconds divided by 1000 and rounded down, a whole number like
    the [int] threshold it is compared with. *)
Definition whole_milliseconds (d : TimeInterval) : Z := d / 1000.

(** The statistics counters of [Run] are C++ [int]s.  [x++] is addition
    in 32-bit two's complement: what the compilers do where the language
    leaves the overflow undefined. *)
Definition INT_MIN : Z := - 2 ^ 31.
Definition INT_MAX : Z := 2 ^ 31 - 1.

Definition wrap_int (z : Z) : Z := (z - INT_MIN) mod 2 ^ 32 + INT_MIN.

Definition int_incr (x : Z) : Z := wrap_int (x + 1).

(** Everything that leaves the thread is an event of its trace. *)
Inductive Event : Type :=
| EvIsOpen (result : bool)
| EvSetupOutput (result : bool)
| EvSetBreak (on : bool) (result : bool)
| EvWrite (data : DmxBuffer) (result : bool)
| EvCurrentTime (t : TimeStamp)
| EvUsleep (usec : Z)
| EvJoin (result : bool)
| EvInfoGranularity (g : TimeGranularity)
| EvInfoStats (frames err_breakstart err_breakstop err_write : Z).

(** ** The collaborators

    [UartWidget], [Clock], [usleep], [Thread::Join] and the constant
    [DMX_MAB] are declared outside the sources.  They are the operations
    of an environment of any type [Env]: a call answers and moves the
    environment on. *)
Class Platform (Env : Type) : Type := {
  widget_IsOpen : Env -> bool * Env;
  widget_SetupOutput : Env -> bool * Env;
  widget_SetBreak : bool -> Env -> bool * Env;
  widget_Write : DmxBuffer -> Env -> bool * Env;
  clock_CurrentTime : Env -> TimeStamp * Env;
  sys_usleep : Z -> Env -> Env;
  thread_Join : Env -> bool * Env;
  InMilliSeconds : TimeInterval -> Z;
  DMX_MAB : Z
}.

(** A platform whose [TimeInterval::InMilliSeconds] is the millisecond
    accessor above. *)
Definition reads_whole_milliseconds {Env : Type} (P : Platform Env) : Prop :=
  forall d : TimeInterval, InMilliSeconds d = whole_milliseconds d.

(** ** The thread object *)

Record UartDmxThread : Type := mkThread {
  m_granularity : TimeGranularity;
  m_term : bool;
  m_breakt : Z;
  m_malft : Z;
  m_buffer : DmxBuffer
}.

Definition set_granularity (g : TimeGranularity) (t : UartDmxThread) :=
  mkThread g (m_term t) (m_breakt t) (m_malft t) (m_buffer t).
Definition set_term (b : bool) (t : UartDmxThread) :=
  mkThread (m_granularity t) b (m_breakt t) (m_malft t) (m_buffer t).
Definition set_buffer (d : DmxBuffer) (t : UartDmxThread) :=
  mkThread (m_granularity t) (m_term t) (m_breakt t) (m_malft t) d.

(** [UartDmxThread::UartDmxThread(widget, breakt, malft)] *)
Definition UartDmxThread_new (breakt malft : Z) : UartDmxThread :=
  {| m_granularity := UNKNOWN;
     m_term := false;
     m_breakt := breakt;
     m_malft := malft;
     m_buffer := DmxBuffer_new |}.

(** The local variables of [Run]. *)
Record RunLocals : Type := mkLocals {
  buffer : DmxBuffer;
  err_breakstart : Z;
  err_breakstop : Z;
  err_write : Z;
  frames : Z;
  lastprint : TimeStamp;
  now : TimeStamp
}.

Definition set_local_buffer (d : DmxBuffer) (l : RunLocals) :=
  mkLocals d (err_breakstart l) (err_breakstop l) (err_write l) (frames l)
           (lastprint l) (now l).
Definition incr_err_breakstart (l : RunLocals) :=
  mkLocals (buffer l) (int_incr (err_breakstart l)) (err_breakstop l)
           (err_write l) (frames l) (lastprint l) (now l).
Definition incr_err_breakstop (l : RunLocals) :=
  mkLocals (buffer l) (err_breakstart l) (int_incr (err_breakstop l))
           (err_write l) (frames l) (lastprint l) (now l).
Definition incr_err_write (l : RunLocals) :=
  mkLocals (buffer l) (err_breakstart l) (err_breakstop l)
           (int_incr (err_write l)) (frames l) (lastprint l) (now l).
Definition set_now (t : TimeStamp) (l : RunLocals) :=
  mkLocals (buffer l) (err_breakstart l) (err_breakstop l) (err_write l)
           (frames l) (lastprint l) t.
Definition set_lastprint (t : TimeStamp) (l : RunLocals) :=
  mkLocals (buffer l) (err_breakstart l) (err_breakstop l) (err_write l)
           (frames l) t (now l).
Definition clear_counters (l : RunLocals) :=
  mkLocals (buffer l) 0 0 0 0 (lastprint l) (now l).

(** ** The monad of the member functions *)

Section Program.

Context {Env : Type}.

(** The state a member function works on: the object and the world
    around it. *)
Record St : Type := mkSt { this : UartDmxThread; env : Env }.

(** A program answers, leaves a state and a list of events. *)
Definition Prog (A : Type) : Type := St -> A * St * list Event.

Definition ret {A} (a : A) : Prog A := fun s => (a, s, []).

Definition bind {A B} (m : Prog A) (f : A -> Prog B) : Prog B :=
  fun s =>
    let '(a, s1, t1) := m s in
    let '(b, s2, t2) := f a s1 in
    (b, s2, t1 ++ t2).

Definition result {A} (r : A * St * list Event) : A := fst (fst r).
Definition final {A} (r : A * St * list Event) : St := snd (fst r).
Definition events {A} (r : A * St * list Event) : list Event := snd r.

End Program.

Arguments St Env : clear implicits.
Arguments Prog Env A : clear implicits.

Declare Scope prog_scope.
Delimit Scope prog_scope with prog.
Notation "x <- m ;; k" := (bind m (fun x => k))
  (at level 61, m at next level, right associativity) : prog_scope.
Notation "m ;; k" := (bind m (fun _ => k))
  (at level 61, right associativity) : prog_scope.
Local Open Scope prog_scope.

Section Members.

Context {Env : Type} {P : Platform Env}.

Local Abbreviation M := (Prog Env).

(** Reading and writing the members. *)
Definition get_this : M UartDmxThread := fun s => (this s, s, []).
Definition modify_this (f : UartDmxThread -> UartDmxThread) : M unit :=
  fun s => (tt, mkSt (f (this s)) (env s), []).

(** Calls to the collaborators: the answer comes from the environment and
    the call is recorded. *)
Definition call {A} (op : Env -> A * Env) (ev : A -> Event) : M A :=
  fun s => let '(a, e) := op (env s) in (a, mkSt (this s) e, [ev a]).

Definition IsOpen : M bool := call widget_IsOpen EvIsOpen.
Definition SetupOutput : M bool := call widget_SetupOutput EvSetupOutput.
Definition SetBreak (on : bool) : M bool :=
  call (widget_SetBreak on) (EvSetBreak on).
Definition Write (data : DmxBuffer) : M bool :=
  call (widget_Write data) (EvWrite data).
Definition CurrentTime : M TimeStamp := call clock_CurrentTime EvCurrentTime.
Definition usleep (usec : Z) : M unit :=
  fun s => (tt, mkSt (this s) (sys_usleep usec (env s)), [EvUsleep usec]).
Definition Join : M bool := call thread_Join EvJoin.
Definition OLA_INFO (line : Event) : M unit := fun s => (tt, s, [line]).

Definition when (c : bool) (m : M unit) : M unit := if c then m else ret tt.

(** ** The member functions *)

(** [bool UartDmxThread::Stop()] *)
Definition Stop : M bool :=
  modify_this (set_term true) ;;
  Join.

(** [UartDmxThread::~UartDmxThread()] *)
Definition UartDmxThread_delete : M unit :=
  _ <- Stop ;; ret tt.

(** [bool UartDmxThread::WriteDMX(const DmxBuffer &buffer)] *)
Definition WriteDMX (data : DmxBuffer) : M bool :=
  modify_this (fun t => set_buffer (DmxBuffer_Set data (m_buffer t)) t) ;;
  ret true.

(** [const int threshold = 3]: a sleep of 1 ms that takes longer than this
    many milliseconds is not trusted. *)
Definition threshold : Z := 3.

(** [void UartDmxThread::CheckTimeGranularity()] *)
Definition CheckTimeGranularity : M unit :=
  ts1 <- CurrentTime ;;
  usleep 1000 ;;
  ts2 <- CurrentTime ;;
  let interval := TimeStamp_sub ts2 ts1 in
  modify_this
    (set_granularity
       (if InMilliSeconds interval >? threshold then BAD else GOOD)) ;;
  t <- get_this ;;
  OLA_INFO (EvInfoGranularity
              (if granularity_eqb (m_granularity t) GOOD then GOOD else BAD)).

(** [TimeInterval m_printinterval = TimeInterval(1e6)]: how often to print
    out, in microseconds. *)
Definition m_printinterval : TimeInterval := TimeInterval_of_usec 1000000.

(** [void *UartDmxThread::Run()], up to the loop: calibration, the widget
    set up, the counters zeroed and the first time stamp taken. *)
Definition Run_init : M RunLocals :=
  CheckTimeGranularity ;;
  open <- IsOpen ;;
  (if negb open then (_ <- SetupOutput ;; ret tt) else ret tt) ;;
  lastprint <- CurrentTime ;;
  ret {| buffer := DmxBuffer_new;
         err_breakstart := 0; err_breakstop := 0; err_write := 0; frames := 0;
         lastprint := lastprint; now := TimeStamp_new |}.

(** The head of the loop: [if (m_term) break;] under [m_term_mutex]. *)
Definition check_term : M bool :=
  t <- get_this ;; ret (m_term t).

(** [buffer.Set(m_buffer)] under [m_buffer_mutex]. *)
Definition acquire (l : RunLocals) : M RunLocals :=
  t <- get_this ;;
  ret (set_local_buffer (DmxBuffer_Set (m_buffer t) (buffer l)) l).

(** [if (m_granularity == GOOD) usleep(m_breakt);] *)
Definition break_hold : M unit :=
  t <- get_this ;;
  when (granularity_eqb (m_granularity t) GOOD) (usleep (m_breakt t)).

(** [if (m_granularity == GOOD) usleep(DMX_MAB);] *)
Definition mab_hold : M unit :=
  t <- get_this ;;
  when (granularity_eqb (m_granularity t) GOOD) (usleep DMX_MAB).

(** From [SetBreak(true)] to the label [framesleep]: each failure counts
    and jumps to the label. *)
Definition transmit (l : RunLocals) : M RunLocals :=
  ok <- SetBreak true ;;
  if negb ok then ret (incr_err_breakstart l) else
  break_hold ;;
  ok <- SetBreak false ;;
  if negb ok then ret (incr_err_breakstop l) else
  mab_hold ;;
  ok <- Write (buffer l) ;;
  if negb ok then ret (incr_err_write l) else
  ret l.

(** [framesleep: usleep(m_malft);] *)
Definition framesleep : M unit :=
  t <- get_this ;; usleep (m_malft t).

(** The housekeeping at the end of the loop body. *)
Definition housekeeping (l : RunLocals) : M RunLocals :=
  now <- CurrentTime ;;
  let l := set_now now l in
  let since_lastprint := TimeStamp_sub (now) (lastprint l) in
  if TimeInterval_gt since_lastprint m_printinterval then
    let l := set_lastprint now l in
    OLA_INFO (EvInfoStats (frames l) (err_breakstart l) (err_breakstop l)
                          (err_write l)) ;;
    ret (clear_counters l)
  else ret l.

(** One turn of the loop body after the termination check. *)
Definition Run_cycle (l : RunLocals) : M RunLocals :=
  l <- acquire l ;;
  l <- transmit l ;;
  framesleep ;;
  housekeeping l.

(** [while (1)]: [fuel] bounds the number of turns; [None] when the bound
    is reached before [m_term] is seen. *)
Fixpoint Run_loop (fuel : nat) (l : RunLocals) : M (option unit) :=
  match fuel with
  | O => ret None
  | S fuel =>
      term <- check_term ;;
      if term then ret (Some tt) else
      l <- Run_cycle l ;;
      Run_loop fuel l
  end.

Definition Run (fuel : nat) : M (option unit) :=
  l <- Run_init ;;
  Run_loop fuel l.

End Members.

(** ** The two threads together

    The output thread runs [Run]; the application thread calls [WriteDMX]
    and [Stop].  A scheduler picks which of the two makes the next move.
    A [MutexLocker] takes its mutex when the mutex is free, waits
    otherwise, and gives it back at the end of its block. *)

Inductive Tid : Type := OutputThread | Application.

(** Modelled from the spec: [DmxBuffer::Set] is not part of the sources.
    In the machine the copy is not one move: byte [i] of the source is
    written at position [i] of the receiver, one byte a move, and the
    length of the receiver is set to that of the source at the end. *)
Definition copy_byte (i : nat) (src dst : DmxBuffer) : DmxBuffer :=
  firstn i dst ++ firstn 1 (skipn i src) ++ skipn (S i) dst.

Definition set_length (n : nat) (dst : DmxBuffer) : DmxBuffer := firstn n dst.

(** Where the output thread stands in [Run]. *)
Inductive PacerPc : Type :=
| P_entry
| P_lock_term
| P_read_term
| P_lock_buffer
| P_copy (i : nat)
| P_unlock_buffer
| P_break_start
| P_break_hold
| P_break_stop
| P_mab_hold
| P_write
| P_framesleep
| P_housekeeping
| P_exit.

(** Where the application thread stands in [WriteDMX] or [Stop]. *)
Inductive AppPc : Type :=
| A_idle
| A_write_lock (f : DmxBuffer)
| A_write_copy (f : DmxBuffer) (i : nat)
| A_write_return (f : DmxBuffer)
| A_stop_lock
| A_stop_set
| A_stop_unlock
| A_stop_join.

(** What the machine remembers of a run: the events of the output thread
    and the moves that matter for the hand-off. *)
Inductive MEvent : Type :=
| Ext (e : Event)
| Published (f : DmxBuffer) (result : bool)
| Acquired
| Stopped (result : bool).

Section Machine.

Context {Env : Type} {P : Platform Env}.

Record Machine : Type := mkMachine {
  obj : UartDmxThread;
  m_term_mutex : option Tid;
  m_buffer_mutex : option Tid;
  pacer : PacerPc;
  locals : RunLocals;
  app : AppPc;
  world : Env;
  history : list MEvent
}.

Definition with_obj (o : UartDmxThread) (s : Machine) :=
  mkMachine o (m_term_mutex s) (m_buffer_mutex s) (pacer s) (locals s)
            (app s) (world s) (history s).
Definition with_term_mutex (m : option Tid) (s : Machine) :=
  mkMachine (obj s) m (m_buffer_mutex s) (pacer s) (locals s)
            (app s) (world s) (history s).
Definition with_buffer_mutex (m : option Tid) (s : Machine) :=
  mkMachine (obj s) (m_term_mutex s) m (pacer s) (locals s)
            (app s) (world s) (history s).
Definition with_pacer (pc : PacerPc) (s : Machine) :=
  mkMachine (obj s) (m_term_mutex s) (m_buffer_mutex s) pc (locals s)
            (app s) (world s) (history s).
Definition with_locals (l : RunLocals) (s : Machine) :=
  mkMachine (obj s) (m_term_mutex s) (m_buffer_mutex s) (pacer s) l
            (app s) (world s) (history s).
Definition with_app (pc : AppPc) (s : Machine) :=
  mkMachine (obj s) (m_term_mutex s) (m_buffer_mutex s) (pacer s) (locals s)
            pc (world s) (history s).
Definition record (e : MEvent) (s : Machine) :=
  mkMachine (obj s) (m_term_mutex s) (m_buffer_mutex s) (pacer s) (locals s)
            (app s) (world s) (history s ++ [e]).

(** A piece of a member function run as one move of the machine. *)
Definition exec {A} (m : Prog Env A) (s : Machine) : A * Machine :=
  let '(a, st, evs) := m (mkSt (obj s) (world s)) in
  (a, mkMachine (this st) (m_term_mutex s) (m_buffer_mutex s) (pacer s)
                (locals s) (app s) (env st) (history s ++ map Ext evs)).

Definition is_free (m : option Tid) : bool :=
  match m with None => true | Some _ => false end.

(** One move of the output thread. *)
Definition pacer_step (s : Machine) : Machine :=
  match pacer s with
  | P_entry =>
      let (l, s) := exec Run_init s in
      with_pacer P_lock_term (with_locals l s)
  | P_lock_term =>
      if is_free (m_term_mutex s)
      then with_pacer P_read_term (with_term_mutex (Some OutputThread) s)
      else s
  | P_read_term =>
      let (term, s) := exec check_term s in
      with_pacer (if term then P_exit else P_lock_buffer)
                 (with_term_mutex None s)
  | P_lock_buffer =>
      if is_free (m_buffer_mutex s)
      then with_pacer (P_copy 0) (with_buffer_mutex (Some OutputThread) s)
      else s
  | P_copy i =>
      let src := m_buffer (obj s) in
      let dst := buffer (locals s) in
      if (i <? length src)%nat
      then with_pacer (P_copy (S i))
             (with_locals (set_local_buffer (copy_byte i src dst) (locals s)) s)
      else with_pacer P_unlock_buffer
             (with_locals
                (set_local_buffer (set_length (length src) dst) (locals s)) s)
  | P_unlock_buffer =>
      with_pacer P_break_start (record Acquired (with_buffer_mutex None s))
  | P_break_start =>
      let (ok, s) := exec (SetBreak true) s in
      if negb ok
      then with_pacer P_framesleep
             (with_locals (incr_err_breakstart (locals s)) s)
      else with_pacer P_break_hold s
  | P_break_hold =>
      let (_, s) := exec break_hold s in with_pacer P_break_stop s
  | P_break_stop =>
      let (ok, s) := exec (SetBreak false) s in
      if negb ok
      then with_pacer P_framesleep
             (with_locals (incr_err_breakstop (locals s)) s)
      else with_pacer P_mab_hold s
  | P_mab_hold =>
      let (_, s) := exec mab_hold s in with_pacer P_write s
  | P_write =>
      let (ok, s) := exec (Write (buffer (locals s))) s in
      if negb ok
      then with_pacer P_framesleep (with_locals (incr_err_write (locals s)) s)
      else with_pacer P_framesleep s
  | P_framesleep =>
      let (_, s) := exec framesleep s in with_pacer P_housekeeping s
  | P_housekeeping =>
      let (l, s) := exec (housekeeping (locals s)) s in
      with_pacer P_lock_term (with_locals l s)
  | P_exit => s
  end.

(** One move of the application thread inside [WriteDMX] or [Stop].
    Modelled from the spec: [Thread::Join] waits until the output thread
    has left [Run]. *)
Definition app_step (s : Machine) : Machine :=
  match app s with
  | A_idle => s
  | A_write_lock f =>
      if is_free (m_buffer_mutex s)
      then with_app (A_write_copy f 0) (with_buffer_mutex (Some Application) s)
      else s
  | A_write_copy f i =>
      let dst := m_buffer (obj s) in
      if (i <? length f)%nat
      then with_app (A_write_copy f (S i))
             (with_obj (set_buffer (copy_byte i f dst) (obj s)) s)
      else with_app (A_write_return f)
             (with_obj (set_buffer (set_length (length f) dst) (obj s)) s)
  | A_write_return f =>
      with_app A_idle (record (Published f true) (with_buffer_mutex None s))
  | A_stop_lock =>
      if is_free (m_term_mutex s)
      then with_app A_stop_set (with_term_mutex (Some Application) s)
      else s
  | A_stop_set =>
      with_app A_stop_unlock (with_obj (set_term true (obj s)) s)
  | A_stop_unlock =>
      with_app A_stop_join (with_term_mutex None s)
  | A_stop_join =>
      match pacer s with
      | P_exit =>
          let (r, s) := exec Join s in with_app A_idle (record (Stopped r) s)
      | _ => s
      end
  end.

(** What the scheduler can pick: a move of either thread, or a call of the
    application into the object when it is not inside one. *)
Inductive Choice : Type :=
| RunOutput
| RunApplication
| CallWriteDMX (f : DmxBuffer)
| CallStop.

Definition step (c : Choice) (s : Machine) : Machine :=
  match c with
  | RunOutput => pacer_step s
  | RunApplication => app_step s
  | CallWriteDMX f =>
      match app s with A_idle => with_app (A_write_lock f) s | _ => s end
  | CallStop =>
      match app s with A_idle => with_app A_stop_lock s | _ => s end
  end.

Definition run (sched : list Choice) (s : Machine) : Machine :=
  fold_left (fun s c => step c s) sched s.

(** The object just constructed, the output thread about to enter [Run]. *)
Definition start (breakt malft : Z) (e : Env) : Machine :=
  {| obj := UartDmxThread_new breakt malft;
     m_term_mutex := None;
     m_buffer_mutex := None;
     pacer := P_entry;
     locals := mkLocals DmxBuffer_new 0 0 0 0 TimeStamp_new TimeStamp_new;
     app := A_idle;
     world := e;
     history := [] |}.

Definition reachable (breakt malft : Z) (e : Env) (s : Machine) : Prop :=
  exists sched, s = run sched (start breakt malft e).

End Machine.

Arguments Machine Env : clear implicits.

(** The frame last published and the frame last copied out, read off a
    history. *)
Definition note_published (latest : DmxBuffer) (e : MEvent) : DmxBuffer :=
  match e with Published f _ => f | _ => latest end.

Definition latest_published (h : list MEvent) : DmxBuffer :=
  fold_left note_published h DmxBuffer_new.

Definition note_working (st : DmxBuffer * DmxBuffer) (e : MEvent) :=
  match e with
  | Published f _ => (f, snd st)
  | Acquired => (fst st, fst st)
  | _ => st
  end.

Definition working_frame (h : list MEvent) : DmxBuffer :=
  snd (fold_left note_working h (DmxBuffer_new, DmxBuffer_new)).

Definition is_widget_write (e : MEvent) : bool :=
  match e with Ext (EvWrite _ _) => true | _ => false end.

(** ** What holds in every state of the machine *)

Definition pacer_holds_term (pc : PacerPc) : bool :=
  match pc with P_read_term => true | _ => false end.
Definition pacer_holds_buffer (pc : PacerPc) : bool :=
  match pc with P_copy _ | P_unlock_buffer => true | _ => false end.
Definition app_holds_term (pc : AppPc) : bool :=
  match pc with A_stop_set | A_stop_unlock => true | _ => false end.
Definition app_holds_buffer (pc : AppPc) : bool :=
  match pc with A_write_copy _ _ | A_write_return _ => true | _ => false end.

(** The steps of a cycle: the output thread holds no mutex and its buffer
    is the working frame. *)
Definition plain (pc : PacerPc) : bool :=
  match pc with
  | P_entry | P_read_term | P_copy _ | P_unlock_buffer => false
  | _ => true
  end.

(** A mutex is held by the thread that stands inside its block, and the
    two threads never stand inside the block of one mutex together. *)
Definition held_by (output application : bool) (m : option Tid) : Prop :=
  match output, application with
  | false, false => m = None
  | true, false => m = Some OutputThread
  | false, true => m = Some Application
  | true, true => False
  end.

(** The bytes of a copy of [src] over [dst] after [i] bytes. *)
Definition torn (i : nat) (src dst : DmxBuffer) : DmxBuffer :=
  firstn i src ++ skipn i dst.

Definition is_write (e : Event) : bool :=
  match e with EvWrite _ _ => true | _ => false end.
Definition is_calibration (e : MEvent) : bool :=
  match e with Ext (EvInfoGranularity _) => true | _ => false end.

(** Events that are no write to the widget and no calibration. *)
Definition quiet (evs : list Event) : bool :=
  forallb
    (fun e =>
       negb (is_write e) &&
       negb match e with EvInfoGranularity _ => true | _ => false end)
    evs.

(** Every frame written to the widget is the frame last copied out
    before the write. *)
Definition writes_right (h : list MEvent) : Prop :=
  forall pre d r post,
    h = pre ++ Ext (EvWrite d r) :: post -> d = working_frame pre.

Section Invariant.

Context {Env : Type} {P : Platform Env}.

Record Inv (s : Machine Env) : Prop := mkInv {
  (** the mutexes *)
  inv_term_mutex :
    held_by (pacer_holds_term (pacer s)) (app_holds_term (app s))
            (m_term_mutex s);
  inv_buffer_mutex :
    held_by (pacer_holds_buffer (pacer s)) (app_holds_buffer (app s))
            (m_buffer_mutex s);
  (** the published buffer: the frame last published, or on the way to
      the frame being published *)
  inv_published :
    match app s with
    | A_write_copy f i =>
        (i <= length f)%nat /\
        m_buffer (obj s) = torn i f (latest_published (history s))
    | A_write_return f => m_buffer (obj s) = f
    | _ => m_buffer (obj s) = latest_published (history s)
    end;
  (** the working buffer: the frame last copied out, or on the way to
      the frame last published *)
  inv_working :
    match pacer s with
    | P_entry =>
        working_frame (history s) = DmxBuffer_new
    | P_copy i =>
        (i <= length (latest_published (history s)))%nat /\
        buffer (locals s) =
          torn i (latest_published (history s)) (working_frame (history s))
    | P_unlock_buffer => buffer (locals s) = latest_published (history s)
    | _ => buffer (locals s) = working_frame (history s)
    end;
  (** what was written to the widget *)
  inv_writes : writes_right (history s);
  (** what [WriteDMX] returned *)
  inv_returns :
    forall f r, In (Published f r) (history s) -> r = true;
  (** the calibration *)
  inv_calibrated :
    length (filter is_calibration (history s)) =
      match pacer s with P_entry => 0%nat | _ => 1%nat end
}.

(** A machine in which [Stop] has set the flag: the output thread has
    left [Run], or the application thread waits in [Join]. *)
Definition joining (s : Machine Env) : Prop :=
  Inv s /\ m_term (obj s) = true /\
  (pacer s = P_exit \/ app s = A_stop_join).

End Invariant.

(** ** Reading a trace *)

(** The error counters have room for one more failure. *)
Definition counters_in_range (l : RunLocals) : Prop :=
  INT_MIN <= err_breakstart l < INT_MAX /\
  INT_MIN <= err_breakstop l < INT_MAX /\
  INT_MIN <= err_write l < INT_MAX.

(** From [l] to [l'] the three error counters have moved by [a], [b] and
    [c], and the frame counter has not moved. *)
Definition counted (l l' : RunLocals) (a b c : Z) : Prop :=
  err_breakstart l' = err_breakstart l + a /\
  err_breakstop l' = err_breakstop l + b /\
  err_write l' = err_write l + c /\
  frames l' = frames l.

(** The events of the report at the end of a cycle. *)
Definition is_report_event (e : Event) : bool :=
  match e with
  | EvCurrentTime _ | EvInfoStats _ _ _ _ => true
  | _ => false
  end.

Definition is_usleep (e : Event) : bool :=
  match e with EvUsleep _ => true | _ => false end.

(** The events a turn of the loop can make. *)
Definition is_cycle_event (e : Event) : bool :=
  match e with
  | EvSetBreak _ _ | EvWrite _ _ | EvUsleep _ | EvCurrentTime _
  | EvInfoStats _ _ _ _ => true
  | _ => false
  end.

(** Every [a] in the list has [b] right behind it. *)
Fixpoint followed_by (a b : Event) (l : list Event) : Prop :=
  match l with
  | [] => True
  | x :: rest =>
      (x = a -> exists rest', rest = b :: rest') /\ followed_by a b rest
  end.

(** The calls to the widget inside a turn of the loop. *)
Definition is_widget_call (e : Event) : bool :=
  match e with EvSetBreak _ _ | EvWrite _ _ => true | _ => false end.

Definition is_break_start (e : Event) : bool :=
  match e with EvSetBreak true _ => true | _ => false end.

Definition is_stats (e : Event) : bool :=
  match e with EvInfoStats _ _ _ _ => true | _ => false end.

(** The three error counters of [Run], in the order of the report. *)
Definition errors (l : RunLocals) : Z * Z * Z :=
  (err_breakstart l, err_breakstop l, err_write l).

(** The failed calls of a trace since its last report, counted call by
    call: failed [SetBreak(true)], failed [SetBreak(false)], failed
    [Write]. *)
Definition tally_event (t : Z * Z * Z) (e : Event) : Z * Z * Z :=
  let '(a, b, c) := t in
  match e with
  | EvSetBreak true false => (a + 1, b, c)
  | EvSetBreak false false => (a, b + 1, c)
  | EvWrite _ false => (a, b, c + 1)
  | EvInfoStats _ _ _ _ => (0, 0, 0)
  | _ => (a, b, c)
  end.

Definition failures_since_report (evs : list Event) : Z * Z * Z :=
  fold_left tally_event evs (0, 0, 0).

(** Every report of the trace carries the tally of the events before it,
    the tally standing at [t] where the trace starts. *)
Fixpoint reports_right (t : Z * Z * Z) (evs : list Event) : Prop :=
  match evs with
  | [] => True
  | e :: rest =>
      match e with
      | EvInfoStats _ a b c => (a, b, c) = t
      | _ => True
      end /\
      reports_right (tally_event t e) rest
  end.

(** Each of the three counts lies between 0 and [k]. *)
Definition within (k : Z) (t : Z * Z * Z) : Prop :=
  let '(a, b, c) := t in 0 <= a <= k /\ 0 <= b <= k /\ 0 <= c <= k.

(** The clock readings that were followed by a report. *)
Fixpoint report_times (evs : list Event) : list TimeStamp :=
  match evs with
  | [] => []
  | e :: rest =>
      match e, rest with
      | EvCurrentTime t, EvInfoStats _ _ _ _ :: _ => t :: report_times rest
      | _, _ => report_times rest
      end
  end.

(** Each time is more than a second (1000000 us) after the one before it,
    the first one after [last]. *)
Fixpoint spaced (last : TimeStamp) (ts : list TimeStamp) : Prop :=
  match ts with
  | [] => True
  | t :: rest => t - last > 1000000 /\ spaced t rest
  end.

(** A trace that does not open with a report. *)
Definition opens_quietly (evs : list Event) : Prop :=
  match evs with EvInfoStats _ _ _ _ :: _ => False | _ => True end.

(** No two writes to the widget without a sleep of [m] between them;
    [open] says that a write has been made since the last such sleep. *)
Fixpoint paced (m : Z) (open : bool) (evs : list Event) : Prop :=
  match evs with
  | [] => True
  | e :: rest =>
      match e with
      | EvWrite _ _ => open = false /\ paced m true rest
      | EvUsleep u => paced m (if u =? m then false else open) rest
      | _ => paced m open rest
      end
  end.

Fixpoint paced_state (m : Z) (open : bool) (evs : list Event) : bool :=
  match evs with
  | [] => open
  | e :: rest =>
      match e with
      | EvWrite _ _ => paced_state m true rest
      | EvUsleep u => paced_state m (if u =? m then false else open) rest
      | _ => paced_state m open rest
      end
  end.

(** ** Reading a schedule and a history *)

(** The frames a history has published, in their order, the empty buffer
    of the constructor first. *)
Definition published_frame (e : MEvent) : list DmxBuffer :=
  match e with Published f _ => [f] | _ => [] end.

Definition published_frames (h : list MEvent) : list DmxBuffer :=
  DmxBuffer_new :: flat_map published_frame h.

(** The number of publishes so far, and the number of publishes there
    were at the last copy-out. *)
Definition note_index (st : nat * nat) (e : MEvent) : nat * nat :=
  match e with
  | Published _ _ => (S (fst st), snd st)
  | Acquired => (fst st, fst st)
  | _ => st
  end.

Definition acquired_index (h : list MEvent) : nat :=
  snd (fold_left note_index h (0%nat, 0%nat)).

Definition count_writes (h : list MEvent) : nat :=
  length (filter is_widget_write h).

(** The writes to the widget still ahead of an output thread that stands
    at [pc] and finds the flag set at its next look: the write of the
    turn it is in, if it is in one and before its frame sleep. *)
Definition writes_left (pc : PacerPc) : nat :=
  match pc with
  | P_lock_buffer | P_copy _ | P_unlock_buffer | P_break_start
  | P_break_hold | P_break_stop | P_mab_hold | P_write => 1
  | _ => 0
  end.

(** What a history can still take up once the output thread has left
    [Run]: publishes, and the return of [Stop] with its [Join]. *)
Definition after_exit_event (e : MEvent) : bool :=
  match e with
  | Published _ _ | Stopped _ | Ext (EvJoin _) => true
  | _ => false
  end.

(** The events of calls that leave the threads. *)
Definition is_ext (e : MEvent) : bool :=
  match e with Ext _ => true | _ => false end.

Definition is_RunOutput (c : Choice) : bool :=
  match c with RunOutput => true | _ => false end.

Definition moves_of_output (sched : list Choice) : nat :=
  length (filter is_RunOutput sched).

(** The sleeps of a thread built with [breakt] and [malft]: the 1000 us
    of the calibration, the break, the mark after break, the frame
    sleep. *)
Definition is_configured_sleep {Env : Type} {P : Platform Env}
           (breakt malft : Z) (e : MEvent) : Prop :=
  match e with
  | Ext (EvUsleep u) =>
      u = 1000 \/ u = breakt \/ u = DMX_MAB \/ u = malft
  | _ => True
  end.

(** A bound on the moves the output thread makes from where it stands to
    the end of [Run], once the flag is set and no mutex is in its way:
    the rest of the turn it is in, then the look at the flag. *)
Definition moves_to_exit {Env : Type} (s : Machine Env) : nat :=
  let len := length (m_buffer (obj s)) in
  match pacer s with
  | P_exit => 0
  | P_read_term => 1
  | P_lock_term => 2
  | P_entry | P_housekeeping => 3
  | P_framesleep => 4
  | P_write => 5
  | P_mab_hold => 6
  | P_break_stop => 7
  | P_break_hold => 8
  | P_break_start => 9
  | P_unlock_buffer => 10
  | P_copy i => 11 + (len - i)
  | P_lock_buffer => 12 + len
  end.

(** ** A platform to run the definitions on

    The widget answers its [SetBreak] and [Write] calls from a script
    (and succeeds once the script is used up), the clock moves only when
    the thread sleeps, and a sleep lasts [overshoot] microseconds longer
    than asked for. *)
Module Sim.

Record Env : Type := mkEnv {
  script : list bool;
  is_open : bool;
  clock : Z;
  overshoot : Z
}.

Definition answer (e : Env) : bool * Env :=
  match script e with
  | [] => (true, e)
  | b :: rest => (b, mkEnv rest (is_open e) (clock e) (overshoot e))
  end.

#[global] Instance platform : Platform Env := {|
  widget_IsOpen := fun e => (is_open e, e);
  widget_SetupOutput :=
    fun e => (true, mkEnv (script e) true (clock e) (overshoot e));
  widget_SetBreak := fun _ e => answer e;
  widget_Write := fun _ e => answer e;
  clock_CurrentTime := fun e => (clock e, e);
  sys_usleep :=
    fun usec e =>
      mkEnv (script e) (is_open e) (clock e + usec + overshoot e) (overshoot e);
  thread_Join := fun e => (true, e);
  InMilliSeconds := fun d => d / 1000;
  DMX_MAB := 16
|}.

(** A thread with a break of 100 us and a frame period of 23 ms. *)
Definition thread (g : TimeGranularity) (data : DmxBuffer) : UartDmxThread :=
  mkThread g false 100 23000 data.

Definition state (g : TimeGranularity) (data : DmxBuffer) (answers : list bool)
  : St Env :=
  mkSt (thread g data) (mkEnv answers true 0 0).

Definition fresh : RunLocals := mkLocals DmxBuffer_new 0 0 0 0 0 0.

Definition frame1 : DmxBuffer := [Byte.x01; Byte.x02; Byte.x03].
Definition frame2 : DmxBuffer := [Byte.xff; Byte.xfe].
Definition frame3 : DmxBuffer := [Byte.x07].

(** The machine on this platform, the widget open and always succeeding. *)
Definition env0 : Env := mkEnv [] true 0 0.
Definition machine0 : Machine Env := start 100 23000 env0.

(** A call of [WriteDMX] run to its return without the output thread
    moving. *)
Definition publish (f : DmxBuffer) : list Choice :=
  CallWriteDMX f :: repeat RunApplication (length f + 3).

(** Two frames are published; the output thread enters [Run], copies the
    published buffer out and asserts the break; a third frame is published
    while the break is held; the output thread goes on to its write. *)
Definition burst : list Choice :=
  publish frame1 ++ publish frame2
  ++ repeat RunOutput 9
  ++ publish frame3
  ++ repeat RunOutput 4.

(** A call of [Stop] up to its wait for the output thread. *)
Definition stop : list Choice :=
  [CallStop; RunApplication; RunApplication; RunApplication].

(** A thread whose flag was set before it ran. *)
Definition stopped_state : St Env :=
  mkSt (mkThread UNKNOWN true 100 23000 []) env0.

(** [Stop] before the output thread has run, then the output thread from
    the entry of [Run] to its end. *)
Definition stop_then_run : list Choice := stop ++ repeat RunOutput 3.

(** The output thread up to the mark after break of its first turn, then
    [Stop]. *)
Definition stop_in_turn : list Choice := repeat RunOutput 9 ++ stop.

(** The output thread up to its look at the flag, inside [m_term_mutex];
    then a call of [Stop]. *)
Definition stop_at_flag : list Choice := [RunOutput; RunOutput; CallStop].

(** A frame is published and sent in a first turn, a second frame is
    published and sent in the next turn. *)
Definition two_frames : list Choice :=
  publish frame1 ++ repeat RunOutput 16
  ++ publish frame2 ++ repeat RunOutput 12.

End Sim.

(** A widget that is not open, cannot be set up and fails every call, on
    a clock that stands still. *)
Module Dead.

Definition Env : Type := unit.

#[global] Instance platform : Platform Env := {|
  widget_IsOpen := fun e => (false, e);
  widget_SetupOutput := fun e => (false, e);
  widget_SetBreak := fun _ e => (false, e);
  widget_Write := fun _ e => (false, e);
  clock_CurrentTime := fun e => (0, e);
  sys_usleep := fun _ e => e;
  thread_Join := fun e => (true, e);
  InMilliSeconds := fun d => d / 1000;
  DMX_MAB := 16
|}.

Definition state : St Env := mkSt (UartDmxThread_new 100 23000) tt.

End Dead.

(** * Properties *)

Lemma int_incr_no_overflow x :
  INT_MIN <= x < INT_MAX -> int_incr x = x + 1.
Proof.
  unfold int_incr, wrap_int, INT_MIN, INT_MAX. intros H.
  rewrite Z.mod_small; lia.
Qed.

(** Unfolding a program down to the calls it makes. *)
Ltac prog_unfold :=
  unfold Run_cycle, transmit, break_hold, mab_hold, framesleep, housekeeping,
    acquire, check_term, CheckTimeGranularity, WriteDMX, Stop, when,
    IsOpen, SetupOutput, SetBreak, Write, CurrentTime, usleep, Join, OLA_INFO,
    call, get_this, modify_this, bind, ret, result, final, events in *.

Ltac prog_call op :=
  let a := fresh "a" in let e := fresh "e" in let E := fresh "E" in
  destruct op as [a e] eqn:E.

Ltac prog_case :=
  match goal with
  | |- context [if negb ?b then _ else _] => destruct b
  | |- context [if granularity_eqb ?a ?b then _ else _] =>
      let G := fresh "G" in destruct (granularity_eqb a b) eqn:G
  | |- context [widget_IsOpen ?e] => prog_call (widget_IsOpen e)
  | |- context [widget_SetupOutput ?e] => prog_call (widget_SetupOutput e)
  | |- context [widget_SetBreak ?b ?e] => prog_call (widget_SetBreak b e)
  | |- context [widget_Write ?d ?e] => prog_call (widget_Write d e)
  | |- context [clock_CurrentTime ?e] => prog_call (clock_CurrentTime e)
  | |- context [thread_Join ?e] => prog_call (thread_Join e)
  end; simpl.

Ltac prog_cases := prog_unfold; simpl; repeat prog_case.

Section ProgramFacts.

Context {Env : Type} {P : Platform Env}.

Lemma transmit_keeps_this (l : RunLocals) (s : St Env) :
  this (final (transmit l s)) = this s.
Proof.
  prog_cases; reflexivity.
Qed.

Lemma acquire_spec (l : RunLocals) (s : St Env) :
  acquire l s = (set_local_buffer (m_buffer (this s)) l, s, []).
Proof. reflexivity. Qed.

(** C2: in the steps of a cycle a failed [SetBreak(true)] adds one to
    [err_breakstart], a failed [SetBreak(false)] one to [err_breakstop], a
    failed [Write] one to [err_write]; the counter of a failure is the
    only one that moves, and no cycle moves more than one of them.  The
    counters are C++ [int]s and stand below [INT_MAX]. *)
Theorem transmit_error_accounting (l : RunLocals) (s : St Env) :
  counters_in_range l ->
  let r := transmit l s in
  let l' := result r in
  (In (EvSetBreak true false) (events r) -> counted l l' 1 0 0) /\
  (In (EvSetBreak false false) (events r) -> counted l l' 0 1 0) /\
  ((exists d, In (EvWrite d false) (events r)) -> counted l l' 0 0 1) /\
  (counted l l' 0 0 0 \/ counted l l' 1 0 0 \/
   counted l l' 0 1 0 \/ counted l l' 0 0 1).
Proof.
  intros (Ha & Hb & Hc).
  pose proof (int_incr_no_overflow _ Ha) as Ia.
  pose proof (int_incr_no_overflow _ Hb) as Ib.
  pose proof (int_incr_no_overflow _ Hc) as Ic.
  assert (K0 : counted l l 0 0 0) by (unfold counted; lia).
  assert (K1 : counted l (incr_err_breakstart l) 1 0 0)
    by (unfold counted; simpl; lia).
  assert (K2 : counted l (incr_err_breakstop l) 0 1 0)
    by (unfold counted; simpl; lia).
  assert (K3 : counted l (incr_err_write l) 0 0 1)
    by (unfold counted; simpl; lia).
  clear Ia Ib Ic.
  prog_cases.
  all: split; [ | split; [ | split ] ]; try tauto.
  all: intros Hin; try destruct Hin as [d Hin]; simpl in Hin;
    first [ assumption
          | exfalso;
            repeat (destruct Hin as [Hin | Hin]; [discriminate Hin | ]);
            exact Hin ].
Qed.

(** C8: the report at the end of a cycle.  With [t] the time read, the
    statistics are logged, the four counters cleared and [lastprint] set
    to [t] when [t - lastprint] is more than 1000000 us, and only then;
    otherwise nothing is logged and counters and [lastprint] stay. *)
Theorem housekeeping_report (l : RunLocals) (s : St Env) :
  let t := fst (clock_CurrentTime (env s)) in
  let r := housekeeping l s in
  let l' := result r in
  (t - lastprint l > 1000000 ->
     events r = [EvCurrentTime t;
                 EvInfoStats (frames l) (err_breakstart l) (err_breakstop l)
                             (err_write l)] /\
     frames l' = 0 /\ err_breakstart l' = 0 /\ err_breakstop l' = 0 /\
     err_write l' = 0 /\ lastprint l' = t) /\
  (t - lastprint l <= 1000000 ->
     events r = [EvCurrentTime t] /\
     frames l' = frames l /\ err_breakstart l' = err_breakstart l /\
     err_breakstop l' = err_breakstop l /\ err_write l' = err_write l /\
     lastprint l' = lastprint l).
Proof.
  prog_cases.
  unfold TimeInterval_gt, TimeStamp_sub, m_printinterval, TimeInterval_of_usec.
  simpl.
  destruct (Z.gtb_spec (a - lastprint l) 1000000) as [Hgt | Hle]; simpl.
  - split; [intros _; repeat split | intros Hle; lia].
  - split; [intros Hgt; lia | intros _; repeat split].
Qed.

Lemma housekeeping_keeps_this (l : RunLocals) (s : St Env) :
  this (final (housekeeping l s)) = this s.
Proof.
  prog_cases.
  destruct (TimeInterval_gt _ _); reflexivity.
Qed.

Lemma housekeeping_events (l : RunLocals) (s : St Env) :
  forallb is_report_event (events (housekeeping l s)) = true.
Proof.
  prog_cases.
  destruct (TimeInterval_gt _ _); reflexivity.
Qed.

Lemma housekeeping_frames (l : RunLocals) (s : St Env) :
  frames (result (housekeeping l s)) = frames l \/
  frames (result (housekeeping l s)) = 0.
Proof.
  prog_cases.
  destruct (TimeInterval_gt _ _); simpl; auto.
Qed.

Lemma transmit_frames (l : RunLocals) (s : St Env) :
  frames (result (transmit l s)) = frames l.
Proof. prog_cases; reflexivity. Qed.

(** The shape of a cycle: the steps, the frame sleep, the report. *)
Lemma Run_cycle_unfold (l : RunLocals) (s : St Env) :
  let l1 := set_local_buffer (m_buffer (this s)) l in
  let r1 := transmit l1 s in
  let s2 := mkSt (this s) (sys_usleep (m_malft (this s)) (env (final r1))) in
  let r3 := housekeeping (result r1) s2 in
  Run_cycle l s =
    (result r3, final r3,
     events r1 ++ EvUsleep (m_malft (this s)) :: events r3).
Proof.
  cbv zeta. set (l1 := set_local_buffer (m_buffer (this s)) l).
  pose proof (transmit_keeps_this l1 s) as Hthis.
  unfold Run_cycle, framesleep, acquire, get_this, usleep, bind, ret,
    DmxBuffer_Set.
  simpl. fold l1.
  destruct (transmit l1 s) as [[l2 s1] ev1].
  unfold final, result, events in *. simpl in *. rewrite Hthis.
  destruct (housekeeping l2 _) as [[l3 s3] ev3]. reflexivity.
Qed.

(** C3: every cycle sleeps [m_malft]: its events are the events of the
    steps, however the steps ended, then the frame sleep, then the events
    of the report, which are no widget call and no sleep. *)
Theorem framesleep_every_cycle (l : RunLocals) (s : St Env) :
  exists report,
    events (Run_cycle l s) =
      events (transmit (set_local_buffer (m_buffer (this s)) l) s)
      ++ EvUsleep (m_malft (this s)) :: report /\
    forallb is_report_event report = true.
Proof.
  rewrite Run_cycle_unfold. unfold events at 1. simpl.
  eexists. split; [reflexivity | apply housekeeping_events].
Qed.

Lemma followed_by_split (a b : Event) (l : list Event) :
  followed_by a b l ->
  forall pre post, l = pre ++ a :: post -> exists post', post = b :: post'.
Proof.
  induction l as [| x l IH]; intros H pre post E.
  - destruct pre; discriminate E.
  - destruct H as [Hx Hl]. destruct pre as [| y pre]; simpl in E.
    + injection E as -> ->. apply Hx. reflexivity.
    + injection E as _ E. exact (IH Hl pre post E).
Qed.

Lemma report_events_no_usleep (l : list Event) :
  forallb is_report_event l = true -> filter is_usleep l = [].
Proof.
  induction l as [| x l IH]; simpl; [reflexivity | ].
  intros H. apply andb_prop in H. destruct H as [Hx Hl].
  destruct x; try discriminate Hx; simpl; auto.
Qed.

Lemma not_GOOD (g : TimeGranularity) :
  g <> GOOD -> granularity_eqb g GOOD = false.
Proof. destruct g; simpl; congruence. Qed.

(** C5: the steps of a cycle, call by call.  With the granularity GOOD
    a break that was asserted is held by a sleep of [m_breakt] before it is
    cleared, and a break that was cleared is followed by a sleep of
    [DMX_MAB] before the write; with the granularity not GOOD (BAD, or
    UNKNOWN) neither sleep is made: the steps sleep nowhere and the frame
    sleep is the only sleep of the cycle.  The trace of the steps is
    given whole, with the answers of the widget: a failed call ends it. *)
Theorem hold_delays (l : RunLocals) (s : St Env) :
  let good := granularity_eqb (m_granularity (this s)) GOOD in
  let hold (usec : Z) (e : Env) := if good then sys_usleep usec e else e in
  let held (usec : Z) := if good then [EvUsleep usec] else [] in
  let r1 := widget_SetBreak true (env s) in
  let r2 := widget_SetBreak false (hold (m_breakt (this s)) (snd r1)) in
  let r3 := widget_Write (buffer l) (hold DMX_MAB (snd r2)) in
  events (transmit l s) =
    EvSetBreak true (fst r1)
      :: (if fst r1
          then held (m_breakt (this s))
               ++ EvSetBreak false (fst r2)
                  :: (if fst r2
                      then held DMX_MAB ++ [EvWrite (buffer l) (fst r3)]
                      else [])
          else []) /\
  (m_granularity (this s) = GOOD ->
     (forall pre post,
        events (transmit l s) = pre ++ EvSetBreak true true :: post ->
        exists post', post = EvUsleep (m_breakt (this s)) :: post') /\
     (forall pre post,
        events (transmit l s) = pre ++ EvSetBreak false true :: post ->
        exists post', post = EvUsleep DMX_MAB :: post')) /\
  (m_granularity (this s) <> GOOD ->
     (forall u, ~ In (EvUsleep u) (events (transmit l s))) /\
     filter is_usleep (events (Run_cycle l s)) =
       [EvUsleep (m_malft (this s))]).
Proof.
  cbv zeta. split; [ | split].
  - destruct (granularity_eqb (m_granularity (this s)) GOOD) eqn:Hgood.
    all: prog_cases; try congruence; reflexivity.
  - intros Hg. split; apply followed_by_split.
    all: prog_cases; try (rewrite Hg in *; discriminate).
    all: simpl; repeat split; intros; try discriminate; eauto.
  - intros Hg. apply not_GOOD in Hg.
    assert (Hno : forall l0, filter is_usleep (events (transmit l0 s)) = []).
    { intros l0. prog_cases; try congruence; reflexivity. }
    split.
    + intros u Hin.
      assert (Hf : In (EvUsleep u) (filter is_usleep (events (transmit l s))))
        by (apply filter_In; split; [exact Hin | reflexivity]).
      rewrite Hno in Hf. exact Hf.
    + rewrite Run_cycle_unfold. unfold events at 1. simpl.
      rewrite filter_app, Hno. simpl.
      rewrite report_events_no_usleep by apply housekeeping_events.
      reflexivity.
Qed.

(** The calibration, call by call. *)
Lemma CheckTimeGranularity_unfold (s : St Env) :
  let c1 := clock_CurrentTime (env s) in
  let c2 := clock_CurrentTime (sys_usleep 1000 (snd c1)) in
  let g := if InMilliSeconds (fst c2 - fst c1) >? 3 then BAD else GOOD in
  CheckTimeGranularity s =
    (tt, mkSt (set_granularity g (this s)) (snd c2),
     [EvCurrentTime (fst c1); EvUsleep 1000; EvCurrentTime (fst c2);
      EvInfoGranularity g]).
Proof.
  prog_unfold. simpl.
  destruct (clock_CurrentTime (env s)) as [t1 e1]. simpl.
  destruct (clock_CurrentTime (sys_usleep 1000 e1)) as [t2 e2]. simpl.
  unfold TimeStamp_sub, threshold.
  destruct (InMilliSeconds (t2 - t1) >? 3); reflexivity.
Qed.

Lemma transmit_events (l : RunLocals) (s : St Env) :
  forallb is_cycle_event (events (transmit l s)) = true.
Proof. prog_cases; reflexivity. Qed.

Lemma report_is_cycle_event (l : list Event) :
  forallb is_report_event l = true -> forallb is_cycle_event l = true.
Proof.
  induction l as [| x l IH]; simpl; [reflexivity | ].
  intros H. apply andb_prop in H. destruct H as [Hx Hl].
  rewrite (IH Hl). destruct x; try discriminate Hx; reflexivity.
Qed.

Lemma Run_cycle_events (l : RunLocals) (s : St Env) :
  forallb is_cycle_event (events (Run_cycle l s)) = true.
Proof.
  rewrite Run_cycle_unfold. unfold events at 1. simpl.
  rewrite forallb_app, transmit_events. simpl.
  apply report_is_cycle_event, housekeeping_events.
Qed.

Lemma Run_cycle_keeps_this (l : RunLocals) (s : St Env) :
  this (final (Run_cycle l s)) = this s.
Proof.
  rewrite Run_cycle_unfold. unfold final at 1. simpl.
  rewrite housekeeping_keeps_this. reflexivity.
Qed.

Lemma Run_loop_events (fuel : nat) :
  forall (l : RunLocals) (s : St Env),
    forallb is_cycle_event (events (Run_loop fuel l s)) = true /\
    this (final (Run_loop fuel l s)) = this s.
Proof.
  induction fuel as [| fuel IH]; intros l s; [split; reflexivity | ].
  simpl. unfold bind at 1, check_term, get_this, bind, ret. simpl.
  destruct (m_term (this s)); [split; reflexivity | ].
  pose proof (Run_cycle_events l s) as Hc.
  pose proof (Run_cycle_keeps_this l s) as Hk.
  destruct (Run_cycle l s) as [[l1 s1] ev1].
  unfold events, final in Hc, Hk. simpl in Hc, Hk.
  destruct (IH l1 s1) as [He Ht].
  destruct (Run_loop fuel l1 s1) as [[r s2] ev2].
  unfold events, final in *. simpl in *.
  rewrite forallb_app, Hc, He, Ht, Hk. split; reflexivity.
Qed.

(** The shape of a run: the calibration, the widget set up, the first
    time stamp, the turns of the loop. *)
Lemma Run_unfold (fuel : nat) (s : St Env) :
  let s1 := final (CheckTimeGranularity s) in
  let o := widget_IsOpen (env s1) in
  let u := widget_SetupOutput (snd o) in
  let c := clock_CurrentTime (if fst o then snd o else snd u) in
  let l := mkLocals DmxBuffer_new 0 0 0 0 (fst c) TimeStamp_new in
  let s2 := mkSt (this s1) (snd c) in
  Run fuel s =
    (result (Run_loop fuel l s2), final (Run_loop fuel l s2),
     events (CheckTimeGranularity s)
     ++ EvIsOpen (fst o)
        :: (if fst o then [] else [EvSetupOutput (fst u)])
        ++ EvCurrentTime (fst c) :: events (Run_loop fuel l s2)).
Proof.
  cbv zeta.
  cbv beta delta [Run Run_init bind IsOpen SetupOutput CurrentTime call ret].
  destruct (CheckTimeGranularity s) as [[x s1] evc].
  cbn [final events result this env fst snd].
  destruct (widget_IsOpen (env s1)) as [o e1].
  cbn [final events result this env fst snd negb].
  destruct o; cbn [final events result this env fst snd negb].
  - destruct (clock_CurrentTime e1) as [t e2].
    cbn [final events result this env fst snd].
    destruct (Run_loop fuel _ _) as [[r s3] ev3].
    unfold result, final, events. simpl. rewrite <- app_assoc. reflexivity.
  - destruct (widget_SetupOutput e1) as [r0 e2].
    cbn [final events result this env fst snd].
    destruct (clock_CurrentTime e2) as [t e3].
    cbn [final events result this env fst snd].
    destruct (Run_loop fuel _ _) as [[r s3] ev3].
    unfold result, final, events. simpl. rewrite <- app_assoc. reflexivity.
Qed.

(** C10: [Run] asks [IsOpen] once, after the calibration, and calls
    [SetupOutput] right after it when the answer is false, and only then;
    no turn of the loop calls either. *)
Theorem setup_iff_not_open (fuel : nat) (s : St Env) :
  let s1 := final (CheckTimeGranularity s) in
  let open := fst (widget_IsOpen (env s1)) in
  exists setup loop,
    events (Run fuel s) =
      events (CheckTimeGranularity s) ++ EvIsOpen open :: setup ++ loop /\
    (open = false -> exists r, setup = [EvSetupOutput r]) /\
    (open = true -> setup = []) /\
    forallb is_cycle_event loop = true.
Proof.
  rewrite Run_unfold. unfold events at 1. cbn [snd].
  set (o := widget_IsOpen _). set (u := widget_SetupOutput _).
  set (c := clock_CurrentTime _).
  exists (if fst o then [] else [EvSetupOutput (fst u)]).
  eexists. split; [reflexivity | ].
  split; [ | split].
  - intros ->. eauto.
  - intros ->. reflexivity.
  - simpl. apply Run_loop_events.
Qed.

(** The turns of the loop log a frame count of zero when they start from
    zero. *)
Lemma Run_cycle_frames (l : RunLocals) (s : St Env) :
  frames (result (Run_cycle l s)) = frames l \/
  frames (result (Run_cycle l s)) = 0.
Proof.
  rewrite Run_cycle_unfold.
  set (l2 := result (transmit (set_local_buffer (m_buffer (this s)) l) s)).
  set (s2 := mkSt _ _).
  change (frames (result (housekeeping l2 s2)) = frames l \/
          frames (result (housekeeping l2 s2)) = 0).
  destruct (housekeeping_frames l2 s2) as [H | H]; rewrite H.
  - left. exact (transmit_frames (set_local_buffer (m_buffer (this s)) l) s).
  - right. reflexivity.
Qed.

Lemma transmit_logs_nothing (l : RunLocals) (s : St Env) :
  forall f a b c, ~ In (EvInfoStats f a b c) (events (transmit l s)).
Proof.
  intros f a b c. prog_cases; simpl; intuition discriminate.
Qed.

Lemma housekeeping_logs_frames (l : RunLocals) (s : St Env) :
  forall f a b c,
    In (EvInfoStats f a b c) (events (housekeeping l s)) -> f = frames l.
Proof.
  intros f a b c. prog_cases. destruct (TimeInterval_gt _ _); simpl.
  - intros [H | [H | []]]; [discriminate H | ].
    injection H as <- _ _ _. reflexivity.
  - intros [H | []]. discriminate H.
Qed.

Lemma Run_cycle_logs_frames (l : RunLocals) (s : St Env) :
  forall f a b c,
    In (EvInfoStats f a b c) (events (Run_cycle l s)) -> f = frames l.
Proof.
  intros f a b c. rewrite Run_cycle_unfold. unfold events at 1. cbn [snd].
  rewrite in_app_iff. intros [Hin | [Hin | Hin]].
  - destruct (transmit_logs_nothing _ _ _ _ _ _ Hin).
  - discriminate Hin.
  - apply housekeeping_logs_frames in Hin. rewrite Hin.
    exact (transmit_frames (set_local_buffer (m_buffer (this s)) l) s).
Qed.

Lemma Run_loop_logs_no_frames (fuel : nat) :
  forall (l : RunLocals) (s : St Env),
    frames l = 0 ->
    forall f a b c,
      In (EvInfoStats f a b c) (events (Run_loop fuel l s)) -> f = 0.
Proof.
  induction fuel as [| fuel IH]; intros l s Hl f a b c; [intros [] | ].
  simpl. unfold bind at 1, check_term, get_this, bind, ret. simpl.
  destruct (m_term (this s)); [intros [] | ].
  pose proof (Run_cycle_logs_frames l s) as Hlog.
  pose proof (Run_cycle_frames l s) as Hfr.
  destruct (Run_cycle l s) as [[l1 s1] ev1].
  unfold events, result in Hlog, Hfr. simpl in Hlog, Hfr.
  assert (Hl1 : frames l1 = 0) by (destruct Hfr; congruence).
  specialize (IH l1 s1 Hl1 f a b c).
  destruct (Run_loop fuel l1 s1) as [[r s2] ev2].
  unfold events in *. simpl in *.
  rewrite in_app_iff. intros [Hin | Hin]; [ | exact (IH Hin)].
  rewrite (Hlog _ _ _ _ Hin). exact Hl.
Qed.

(** C1 (what the code does): [frames] is set to zero and never added to,
    so every report of a run logs a frame count of zero. *)
Theorem Run_reports_no_frames (fuel : nat) (s : St Env) :
  forall f a b c,
    In (EvInfoStats f a b c) (events (Run fuel s)) -> f = 0.
Proof.
  intros f a b c. rewrite Run_unfold. unfold events at 1. cbn [snd].
  rewrite in_app_iff. intros [Hin | Hin].
  - rewrite CheckTimeGranularity_unfold in Hin. unfold events in Hin.
    simpl in Hin. intuition discriminate.
  - simpl in Hin. destruct Hin as [Hin | Hin]; [discriminate Hin | ].
    rewrite in_app_iff in Hin. destruct Hin as [Hin | Hin].
    + destruct (fst (widget_IsOpen _)); simpl in Hin; intuition discriminate.
    + simpl in Hin. destruct Hin as [Hin | Hin]; [discriminate Hin | ].
      revert Hin. apply Run_loop_logs_no_frames. reflexivity.
Qed.

(** ** The calls of a turn, and what ends the loop *)

Lemma transmit_calls (l : RunLocals) (s : St Env) :
  exists a b c,
    filter is_widget_call (events (transmit l s)) =
      EvSetBreak true a
        :: (if a
            then EvSetBreak false b
                   :: (if b then [EvWrite (buffer l) c] else [])
            else []).
Proof.
  prog_cases.
  all: first [ exists false, false, false; reflexivity
             | exists true, false, false; reflexivity
             | exists true, true, false; reflexivity
             | exists true, true, true; reflexivity ].
Qed.

Lemma report_events_no_call (l : list Event) :
  forallb is_report_event l = true -> filter is_widget_call l = [].
Proof.
  induction l as [| x l IH]; simpl; [reflexivity | ].
  intros H. apply andb_prop in H. destruct H as [Hx Hl].
  destruct x; try discriminate Hx; simpl; auto.
Qed.

Lemma Run_cycle_calls (l : RunLocals) (s : St Env) :
  filter is_widget_call (events (Run_cycle l s)) =
    filter is_widget_call
      (events (transmit (set_local_buffer (m_buffer (this s)) l) s)).
Proof.
  rewrite Run_cycle_unfold. unfold events at 1. cbn [snd].
  rewrite filter_app. cbn [filter is_widget_call].
  rewrite (report_events_no_call _ (housekeeping_events _ _)).
  apply app_nil_r.
Qed.

(** X1: the widget calls of a turn, in their order: one [SetBreak(true)];
    [SetBreak(false)] after it when it succeeded, and only then; one
    [Write] after that when both succeeded, and only then, of the frame
    the published buffer held when the turn began. *)
Theorem cycle_protocol_order (l : RunLocals) (s : St Env) :
  exists a b c,
    filter is_widget_call (events (Run_cycle l s)) =
      EvSetBreak true a
        :: (if a
            then EvSetBreak false b
                   :: (if b then [EvWrite (m_buffer (this s)) c] else [])
            else []).
Proof.
  rewrite Run_cycle_calls.
  exact (transmit_calls (set_local_buffer (m_buffer (this s)) l) s).
Qed.

Lemma calls_break_starts (evs : list Event) :
  filter is_break_start evs = filter is_break_start (filter is_widget_call evs).
Proof.
  induction evs as [| e evs IH]; [reflexivity | ].
  destruct e as [ | | [] ? | | | | | | ]; simpl; rewrite <- ?IH; reflexivity.
Qed.

Lemma Run_cycle_break_starts (l : RunLocals) (s : St Env) :
  length (filter is_break_start (events (Run_cycle l s))) = 1%nat.
Proof.
  rewrite calls_break_starts, Run_cycle_calls.
  destruct (transmit_calls (set_local_buffer (m_buffer (this s)) l) s)
    as (a & b & c & E).
  rewrite E. destruct a, b; reflexivity.
Qed.

Lemma Run_loop_goes_on (fuel : nat) :
  forall (l : RunLocals) (s : St Env),
    m_term (this s) = false ->
    result (Run_loop fuel l s) = None /\
    length (filter is_break_start (events (Run_loop fuel l s))) = fuel.
Proof.
  induction fuel as [| fuel IH]; intros l s Ht; [split; reflexivity | ].
  simpl. unfold bind at 1, check_term, get_this, bind, ret. simpl.
  rewrite Ht.
  pose proof (Run_cycle_break_starts l s) as Hc.
  pose proof (Run_cycle_keeps_this l s) as Hk.
  destruct (Run_cycle l s) as [[l1 s1] ev1].
  unfold events, final in Hc, Hk. simpl in Hc, Hk.
  assert (Ht1 : m_term (this s1) = false) by (rewrite Hk; exact Ht).
  destruct (IH l1 s1 Ht1) as [Hr Hn].
  destruct (Run_loop fuel l1 s1) as [[r s2] ev2].
  unfold events, result in *. simpl in *.
  split; [exact Hr | ].
  rewrite filter_app, length_app, Hc, Hn. reflexivity.
Qed.

Lemma CheckTimeGranularity_term (s : St Env) :
  m_term (this (final (CheckTimeGranularity s))) = m_term (this s).
Proof. rewrite CheckTimeGranularity_unfold. reflexivity. Qed.

Lemma CheckTimeGranularity_break_starts (s : St Env) :
  filter is_break_start (events (CheckTimeGranularity s)) = [].
Proof. rewrite CheckTimeGranularity_unfold. reflexivity. Qed.


(** X2: nothing but the flag ends the loop.  With the flag not set, a run
    of [fuel] turns has not returned, and it has called [SetBreak(true)]
    once in every one of the turns, whatever calls failed before. *)
Theorem Run_goes_on (fuel : nat) (s : St Env) :
  m_term (this s) = false ->
  result (Run fuel s) = None /\
  length (filter is_break_start (events (Run fuel s))) = fuel.
Proof.
  intros Ht. rewrite Run_unfold.
  match goal with
  | |- context [Run_loop fuel ?l ?s2] =>
      destruct (Run_loop_goes_on fuel l s2) as [Hr Hn];
      [cbn [this]; rewrite CheckTimeGranularity_term; exact Ht | ];
      set (r := Run_loop fuel l s2) in *
  end.
  split; [exact Hr | ].
  unfold events at 1. cbn [snd].
  rewrite filter_app, CheckTimeGranularity_break_starts.
  cbn [List.app filter is_break_start]. rewrite filter_app.
  destruct (fst (widget_IsOpen _)); exact Hn.
Qed.

(** X3: a thread stopped before it runs.  With the flag set when [Run] is
    entered, [Run] still calibrates (and sleeps its 1000 us), asks
    [IsOpen], sets the widget up when it is not open and reads the clock;
    then it returns at the first look at the flag: no turn is made, so no
    break, no write, no frame sleep. *)
Theorem Run_after_Stop (fuel : nat) (s : St Env) :
  m_term (this s) = true ->
  let s1 := final (CheckTimeGranularity s) in
  let o := widget_IsOpen (env s1) in
  let u := widget_SetupOutput (snd o) in
  let c := clock_CurrentTime (if fst o then snd o else snd u) in
  result (Run (S fuel) s) = Some tt /\
  events (Run (S fuel) s) =
    events (CheckTimeGranularity s)
    ++ EvIsOpen (fst o)
       :: (if fst o then [] else [EvSetupOutput (fst u)])
       ++ [EvCurrentTime (fst c)] /\
  env (final (Run (S fuel) s)) = snd c.
Proof.
  intros Ht. cbv zeta. rewrite Run_unfold.
  unfold result at 1, events at 1, final at 1. cbn [fst snd].
  cbn [Run_loop]. unfold bind at 1, check_term, get_this, bind, ret.
  cbn [this fst snd]. rewrite CheckTimeGranularity_term, Ht.
  repeat split.
Qed.






Lemma transmit_head (l : RunLocals) (s : St Env) :
  exists a rest, events (transmit l s) = EvSetBreak true a :: rest.
Proof. prog_cases; eauto. Qed.

Lemma events_mk {A} (a : A) (s : St Env) (evs : list Event) :
  events (a, s, evs) = evs.
Proof. reflexivity. Qed.

Lemma result_mk {A} (a : A) (s : St Env) (evs : list Event) :
  result (a, s, evs) = a.
Proof. reflexivity. Qed.

Lemma Run_loop_head (fuel : nat) (l : RunLocals) (s : St Env) :
  m_term (this s) = false ->
  exists a rest, events (Run_loop (S fuel) l s) = EvSetBreak true a :: rest.
Proof.
  intros Ht. cbn [Run_loop].
  unfold bind at 1, check_term, get_this, bind, ret. cbn [this fst snd].
  rewrite Ht.
  pose proof (Run_cycle_unfold l s) as Hc. cbv zeta in Hc.
  destruct (transmit_head (set_local_buffer (m_buffer (this s)) l) s)
    as (a & rest & Eh).
  rewrite Eh in Hc.
  destruct (Run_cycle l s) as [[l1 s1] ev1].
  apply (f_equal snd) in Hc. cbn [snd] in Hc. subst ev1.
  destruct (Run_loop fuel l1 s1) as [[r s2] ev2].
  rewrite events_mk. cbn [List.app]. eauto.
Qed.

(** X5: the answer of [SetupOutput] is not looked at.  When the widget is
    not open [Run] calls [SetupOutput], and whatever it answers, also
    failure, [Run] reads the clock and enters the loop: with the flag not
    set the next call is the [SetBreak(true)] of the first turn, on the
    widget that could not be set up. *)
Theorem Run_ignores_SetupOutput (fuel : nat) (s : St Env) :
  m_term (this s) = false ->
  let s1 := final (CheckTimeGranularity s) in
  let o := widget_IsOpen (env s1) in
  let u := widget_SetupOutput (snd o) in
  fst o = false ->
  exists t a rest,
    events (Run (S fuel) s) =
      events (CheckTimeGranularity s)
      ++ EvIsOpen false :: EvSetupOutput (fst u) :: EvCurrentTime t
         :: EvSetBreak true a :: rest.
Proof.
  intros Ht. cbv zeta. intros Ho. rewrite Run_unfold, events_mk, Ho.
  match goal with
  | |- context [Run_loop (S fuel) ?l ?s2] =>
      destruct (Run_loop_head fuel l s2) as (a & rest & E);
      [cbn [this]; rewrite CheckTimeGranularity_term; exact Ht | rewrite E]
  end.
  cbn [List.app]. eauto.
Qed.

(** ** What the reports say *)

Lemma reports_right_app (x y : list Event) :
  forall t,
    reports_right t x -> reports_right (fold_left tally_event x t) y ->
    reports_right t (x ++ y).
Proof.
  induction x as [| e x IH]; simpl; intros t Hx Hy; [exact Hy | ].
  destruct Hx as [He Hx]. split; [exact He | apply IH; assumption].
Qed.

Lemma reports_right_split (evs : list Event) :
  forall t,
    reports_right t evs ->
    forall pre f a b c post,
      evs = pre ++ EvInfoStats f a b c :: post ->
      (a, b, c) = fold_left tally_event pre t.
Proof.
  induction evs as [| e evs IH]; intros t H pre f a b c post E.
  - destruct pre; discriminate E.
  - destruct H as [He Hr]. destruct pre as [| x pre]; simpl in E.
    + injection E as -> _. exact He.
    + injection E as -> E. simpl. exact (IH _ Hr pre f a b c post E).
Qed.

Lemma tally_neutral (t : Z * Z * Z) (e : Event) :
  is_widget_call e || is_stats e = false -> tally_event t e = t.
Proof.
  destruct t as [[a b] c]. destruct e; try discriminate; reflexivity.
Qed.

Lemma within_range (k x : Z) :
  0 <= x <= k -> k < INT_MAX -> int_incr x = x + 1.
Proof.
  intros Hx Hk. apply int_incr_no_overflow.
  unfold INT_MIN, INT_MAX in *. lia.
Qed.

Lemma transmit_tally (l : RunLocals) (s : St Env) (k : Z) :
  within k (errors l) -> k < INT_MAX ->
  reports_right (errors l) (events (transmit l s)) /\
  errors (result (transmit l s)) =
    fold_left tally_event (events (transmit l s)) (errors l) /\
  within (k + 1) (errors (result (transmit l s))).
Proof.
  unfold within, errors. intros (Ha & Hb & Hc) Hk.
  pose proof (within_range k _ Ha Hk) as Ia.
  pose proof (within_range k _ Hb Hk) as Ib.
  pose proof (within_range k _ Hc Hk) as Ic.
  prog_cases.
  all: cbn [reports_right fold_left tally_event].
  all: rewrite ?Ia, ?Ib, ?Ic.
  all: repeat split; lia.
Qed.

Lemma housekeeping_tally (l : RunLocals) (s : St Env) (k : Z) :
  within k (errors l) ->
  reports_right (errors l) (events (housekeeping l s)) /\
  errors (result (housekeeping l s)) =
    fold_left tally_event (events (housekeeping l s)) (errors l) /\
  within k (errors (result (housekeeping l s))).
Proof.
  unfold within, errors. intros (Ha & Hb & Hc).
  prog_cases. destruct (TimeInterval_gt _ _); simpl.
  all: repeat split; lia.
Qed.

Lemma Run_cycle_tally (l : RunLocals) (s : St Env) (k : Z) :
  within k (errors l) -> k < INT_MAX ->
  reports_right (errors l) (events (Run_cycle l s)) /\
  errors (result (Run_cycle l s)) =
    fold_left tally_event (events (Run_cycle l s)) (errors l) /\
  within (k + 1) (errors (result (Run_cycle l s))).
Proof.
  intros Hl Hk. rewrite Run_cycle_unfold.
  set (l1 := set_local_buffer (m_buffer (this s)) l).
  change (errors l) with (errors l1) in *.
  destruct (transmit_tally l1 s k Hl Hk) as (R1 & E1 & W1).
  set (r1 := transmit l1 s) in *.
  set (s2 := mkSt _ _).
  destruct (housekeeping_tally (result r1) s2 (k + 1) W1) as (R3 & E3 & W3).
  set (r3 := housekeeping (result r1) s2) in *.
  rewrite !events_mk, !result_mk.
  assert (Eu : fold_left tally_event
                 (events r1 ++ [EvUsleep (m_malft (this s))]) (errors l1)
               = errors (result r1)).
  { rewrite fold_left_app, <- E1. apply tally_neutral. reflexivity. }
  change (events r1 ++ EvUsleep (m_malft (this s)) :: events r3)
    with (events r1 ++ [EvUsleep (m_malft (this s))] ++ events r3).
  rewrite app_assoc.
  split; [ | split].
  - apply reports_right_app; [ | rewrite Eu; exact R3].
    apply reports_right_app; [exact R1 | ]. simpl. tauto.
  - rewrite fold_left_app, Eu. exact E3.
  - exact W3.
Qed.

Lemma Run_loop_tally (fuel : nat) :
  forall (l : RunLocals) (s : St Env) (k : Z),
    within k (errors l) -> k + Z.of_nat fuel <= INT_MAX ->
    reports_right (errors l) (events (Run_loop fuel l s)).
Proof.
  induction fuel as [| fuel IH]; intros l s k Hl Hk; [exact I | ].
  simpl. unfold bind at 1, check_term, get_this, bind, ret. simpl.
  destruct (m_term (this s)); [exact I | ].
  destruct (Run_cycle_tally l s k Hl) as (R1 & E1 & W1); [lia | ].
  destruct (Run_cycle l s) as [[l1 s1] ev1].
  unfold events, result in R1, E1, W1. simpl in R1, E1, W1.
  assert (IH1 : reports_right (errors l1) (events (Run_loop fuel l1 s1)))
    by (apply (IH l1 s1 (k + 1)); [exact W1 | lia]).
  destruct (Run_loop fuel l1 s1) as [[r s2] ev2].
  unfold events in *. simpl in *.
  apply reports_right_app; [exact R1 | ]. rewrite <- E1. exact IH1.
Qed.

Lemma CheckTimeGranularity_tally (s : St Env) (t : Z * Z * Z) :
  reports_right t (events (CheckTimeGranularity s)) /\
  fold_left tally_event (events (CheckTimeGranularity s)) t = t.
Proof.
  rewrite CheckTimeGranularity_unfold. destruct t as [[a b] c].
  simpl. tauto.
Qed.

(** X6: the error counts of a report are the failed calls since the report
    before it (since the start of [Run] for the first report): failed
    [SetBreak(true)], failed [SetBreak(false)] and failed [Write], each
    counted once.  The counters are C++ [int]s; a run of at most [INT_MAX]
    turns cannot overflow them. *)
Theorem reports_count_failures (fuel : nat) (s : St Env) :
  Z.of_nat fuel <= INT_MAX ->
  forall pre f a b c post,
    events (Run fuel s) = pre ++ EvInfoStats f a b c :: post ->
    (a, b, c) = failures_since_report pre.
Proof.
  intros Hfuel. apply reports_right_split.
  rewrite Run_unfold.
  match goal with
  | |- context [Run_loop fuel ?l ?s2] =>
      pose proof (Run_loop_tally fuel l s2 0) as Hloop;
      set (r := Run_loop fuel l s2) in *
  end.
  unfold events at 1. cbn [snd].
  destruct (CheckTimeGranularity_tally s (0, 0, 0)) as [Rc Ec].
  apply reports_right_app; [exact Rc | rewrite Ec].
  assert (Hr : reports_right (0, 0, 0) (events r)).
  { apply Hloop; [unfold within, errors; simpl; lia | lia]. }
  destruct (fst (widget_IsOpen _)); simpl; tauto.
Qed.

Lemma report_times_skip (x y : list Event) :
  forallb (fun e => negb (is_report_event e)) x = true ->
  report_times (x ++ y) = report_times y.
Proof.
  induction x as [| e x IH]; [reflexivity | ].
  simpl. intros H. apply andb_prop in H. destruct H as [He Hx].
  rewrite <- (IH Hx). destruct e; try discriminate He; reflexivity.
Qed.

Lemma no_report_no_stats (x : list Event) :
  forallb (fun e => negb (is_report_event e)) x = true ->
  filter is_stats x = [].
Proof.
  induction x as [| e x IH]; [reflexivity | ].
  simpl. intros H. apply andb_prop in H. destruct H as [He Hx].
  rewrite (IH Hx). destruct e; try discriminate He; reflexivity.
Qed.

Lemma report_times_quiet (t : TimeStamp) (y : list Event) :
  opens_quietly y -> report_times (EvCurrentTime t :: y) = report_times y.
Proof.
  destruct y as [| e y]; [reflexivity | ].
  destruct e; simpl; intros H; try reflexivity. contradiction.
Qed.

Lemma transmit_no_report (l : RunLocals) (s : St Env) :
  forallb (fun e => negb (is_report_event e)) (events (transmit l s)) = true.
Proof. prog_cases; reflexivity. Qed.

Lemma housekeeping_cases (l : RunLocals) (s : St Env) :
  exists t,
    (t - lastprint l > 1000000 /\
     (exists f a b c,
        events (housekeeping l s) = [EvCurrentTime t; EvInfoStats f a b c]) /\
     lastprint (result (housekeeping l s)) = t) \/
    (events (housekeeping l s) = [EvCurrentTime t] /\
     lastprint (result (housekeeping l s)) = lastprint l).
Proof.
  prog_cases. exists a.
  unfold TimeInterval_gt, TimeStamp_sub, m_printinterval, TimeInterval_of_usec.
  simpl.
  destruct (Z.gtb_spec (a - lastprint l) 1000000) as [Hgt | Hle]; simpl.
  - left. split; [lia | ]. split; [ | reflexivity]. eauto.
  - right. split; reflexivity.
Qed.

Lemma Run_loop_opens_quietly (fuel : nat) (l : RunLocals) (s : St Env) :
  opens_quietly (events (Run_loop fuel l s)).
Proof.
  destruct fuel as [| fuel]; [exact I | ].
  simpl. unfold bind at 1, check_term, get_this, bind, ret. simpl.
  destruct (m_term (this s)); [exact I | ].
  pose proof (Run_cycle_unfold l s) as Hc. cbv zeta in Hc.
  destruct (transmit_head (set_local_buffer (m_buffer (this s)) l) s)
    as (a & rest & Eh).
  rewrite Eh in Hc.
  destruct (Run_cycle l s) as [[l1 s1] ev1].
  injection Hc as _ _ ->.
  destruct (Run_loop fuel l1 s1) as [[r s2] ev2].
  exact I.
Qed.

Lemma Run_loop_spaced (fuel : nat) :
  forall (l : RunLocals) (s : St Env),
    spaced (lastprint l) (report_times (events (Run_loop fuel l s))) /\
    length (report_times (events (Run_loop fuel l s))) =
      length (filter is_stats (events (Run_loop fuel l s))).
Proof.
  induction fuel as [| fuel IH]; intros l s; [split; reflexivity | ].
  simpl. unfold bind at 1 3 5, check_term, get_this, bind, ret. simpl.
  destruct (m_term (this s)); [split; reflexivity | ].
  pose proof (Run_cycle_unfold l s) as Hc. cbv zeta in Hc.
  set (l1 := set_local_buffer (m_buffer (this s)) l) in *.
  pose proof (transmit_no_report l1 s) as Ht.
  set (r1 := transmit l1 s) in *.
  set (s2 := mkSt _ _) in *.
  destruct (housekeeping_cases (result r1) s2) as [t Hh].
  replace (lastprint (result r1)) with (lastprint l) in Hh
    by (symmetry; unfold r1, l1; prog_cases; reflexivity).
  set (r3 := housekeeping (result r1) s2) in *.
  destruct (Run_cycle l s) as [[l3 s3] ev3].
  injection Hc as -> -> ->.
  pose proof (Run_loop_opens_quietly fuel (result r3) (final r3)) as Hq.
  destruct (IH (result r3) (final r3)) as [Hs Hn].
  destruct (Run_loop fuel (result r3) (final r3)) as [[r s4] ev4].
  rewrite ?events_mk in *.
  assert (Hx : forallb (fun e => negb (is_report_event e))
                 (events r1 ++ [EvUsleep (m_malft (this s))]) = true)
    by (rewrite forallb_app, Ht; reflexivity).
  replace ((events r1 ++ EvUsleep (m_malft (this s)) :: events r3) ++ ev4)
    with ((events r1 ++ [EvUsleep (m_malft (this s))]) ++ events r3 ++ ev4)
    by (rewrite <- !app_assoc; reflexivity).
  rewrite (report_times_skip _ _ Hx), filter_app, (no_report_no_stats _ Hx).
  cbn [List.app].
  destruct Hh as [(Hgt & (f & a & b & c & Ev) & El) | (Ev & El)];
    rewrite Ev, El in *; cbn [List.app].
  - change (report_times ([EvCurrentTime t; EvInfoStats f a b c] ++ ev4))
      with (t :: report_times ev4).
    change (filter is_stats ([EvCurrentTime t; EvInfoStats f a b c] ++ ev4))
      with (EvInfoStats f a b c :: filter is_stats ev4).
    split; [split; [exact Hgt | exact Hs] | ].
    simpl. f_equal. exact Hn.
  - change ([EvCurrentTime t] ++ ev4) with (EvCurrentTime t :: ev4).
    rewrite (report_times_quiet _ _ Hq).
    split; [exact Hs | exact Hn].
Qed.

(** X7: the reports are more than a second apart.  Every report of a run
    comes right after a reading of the clock, and that reading is more
    than 1000000 us after the reading of the report before it; the
    reading of the first report is more than 1000000 us after the time
    stamp [Run] takes before the loop. *)
Theorem reports_spaced (fuel : nat) (s : St Env) :
  let evs := events (Run fuel s) in
  spaced (lastprint (result (Run_init s))) (report_times evs) /\
  length (report_times evs) = length (filter is_stats evs).
Proof.
  cbv zeta. unfold Run. unfold bind at 1 2 3.
  destruct (Run_init s) as [[l s1] ev1] eqn:Ei.
  assert (Hinit : forall y, opens_quietly y ->
                    report_times (ev1 ++ y) = report_times y /\
                    filter is_stats ev1 = []).
  { intros y Hy.
    pose proof (Run_unfold 0 s) as Hu. cbv zeta in Hu.
    unfold Run, bind in Hu. rewrite Ei in Hu. cbn [Run_loop ret] in Hu.
    apply (f_equal snd) in Hu. unfold ret in Hu.
    rewrite events_mk in Hu. cbn [snd] in Hu. rewrite app_nil_r in Hu.
    rewrite CheckTimeGranularity_unfold in Hu. unfold events in Hu.
    cbn [snd List.app] in Hu. rewrite Hu.
    destruct (fst (widget_IsOpen _)); destruct y as [| [] y];
      try contradiction; split; reflexivity. }
  pose proof (Run_loop_opens_quietly fuel l s1) as Hq.
  destruct (Run_loop_spaced fuel l s1) as [Hs Hn].
  destruct (Run_loop fuel l s1) as [[r s2] ev2].
  unfold events, result in *. cbn [fst snd] in *.
  destruct (Hinit ev2 Hq) as [E1 E2].
  rewrite E1, filter_app, E2. split; assumption.
Qed.

(** ** The frame sleep between two frames *)

Lemma paced_app (m : Z) (x y : list Event) :
  forall o,
    paced m o x -> paced m (paced_state m o x) y -> paced m o (x ++ y).
Proof.
  induction x as [| e x IH]; intros o Hx Hy; [exact Hy | ].
  destruct e; simpl in *; try (apply IH; assumption).
  destruct Hx as [Ho Hx]. split; [exact Ho | apply IH; assumption].
Qed.

Lemma paced_state_app (m : Z) (x y : list Event) :
  forall o, paced_state m o (x ++ y) = paced_state m (paced_state m o x) y.
Proof.
  induction x as [| e x IH]; intros o; [reflexivity | ].
  destruct e; simpl; apply IH.
Qed.

Lemma paced_gap (m : Z) (mid : list Event) d r post :
  paced m true (mid ++ EvWrite d r :: post) -> In (EvUsleep m) mid.
Proof.
  induction mid as [| e mid IH]; simpl.
  - intros [H _]. discriminate H.
  - destruct e; try (intros H; right; exact (IH H)).
    + intros [H _]. discriminate H.
    + destruct (Z.eqb_spec usec m) as [-> | Hne].
      * intros _. left. reflexivity.
      * intros H. right. exact (IH H).
Qed.

Lemma paced_split (m : Z) (evs : list Event) :
  forall o,
    paced m o evs ->
    forall pre d1 r1 mid d2 r2 post,
      evs = pre ++ EvWrite d1 r1 :: mid ++ EvWrite d2 r2 :: post ->
      In (EvUsleep m) mid.
Proof.
  induction evs as [| e evs IH]; intros o H pre d1 r1 mid d2 r2 post E.
  - destruct pre; discriminate E.
  - destruct pre as [| x pre]; simpl in E.
    + injection E as -> ->. destruct H as [_ H].
      exact (paced_gap m mid d2 r2 post H).
    + injection E as -> E.
      destruct x; simpl in H; try destruct H as [_ H];
        exact (IH _ H pre d1 r1 mid d2 r2 post E).
Qed.

Lemma transmit_paced (m : Z) (l : RunLocals) (s : St Env) :
  paced m false (events (transmit l s)).
Proof.
  prog_cases; simpl.
  all: repeat match goal with
       | |- context [?a =? ?b] => destruct (a =? b)
       end.
  all: simpl; auto.
Qed.

Lemma Run_cycle_paced (l : RunLocals) (s : St Env) :
  paced (m_malft (this s)) false (events (Run_cycle l s)) /\
  paced_state (m_malft (this s)) false (events (Run_cycle l s)) = false.
Proof.
  rewrite Run_cycle_unfold. rewrite !events_mk.
  set (r1 := transmit _ s). set (s2 := mkSt _ _).
  set (m := m_malft (this s)).
  assert (Hu : forall o, paced_state m o [EvUsleep m] = false)
    by (intros o; cbn [paced_state]; rewrite Z.eqb_refl; reflexivity).
  change (events r1 ++ EvUsleep m :: events (housekeeping (result r1) s2))
    with (events r1 ++ [EvUsleep m] ++ events (housekeeping (result r1) s2)).
  rewrite !paced_state_app, Hu.
  destruct (housekeeping_cases (result r1) s2)
    as [t [(_ & (f & a & b & c & Ev) & _) | (Ev & _)]]; rewrite Ev.
  all: split; [ | reflexivity].
  all: apply paced_app; [apply transmit_paced | ].
  all: exact I.
Qed.

Lemma Run_loop_paced (fuel : nat) :
  forall (l : RunLocals) (s : St Env),
    paced (m_malft (this s)) false (events (Run_loop fuel l s)) /\
    paced_state (m_malft (this s)) false (events (Run_loop fuel l s)) = false.
Proof.
  induction fuel as [| fuel IH]; intros l s; [split; reflexivity | ].
  simpl. unfold bind at 1 3, check_term, get_this, bind, ret. simpl.
  destruct (m_term (this s)); [split; reflexivity | ].
  destruct (Run_cycle_paced l s) as [Hc Hs].
  pose proof (Run_cycle_keeps_this l s) as Hk.
  destruct (Run_cycle l s) as [[l1 s1] ev1].
  rewrite events_mk in Hc, Hs. unfold final in Hk. simpl in Hk.
  destruct (IH l1 s1) as [Hl Hf]. rewrite Hk in Hl, Hf.
  destruct (Run_loop fuel l1 s1) as [[r s2] ev2].
  rewrite events_mk in *.
  split; [apply paced_app; [exact Hc | rewrite Hs; exact Hl] | ].
  rewrite paced_state_app, Hs. exact Hf.
Qed.

(** X8: a frame sleep lies between any two frames.  Whenever [Run]
    writes two frames to the widget, it has slept [m_malft] between the
    two writes: the widget is never handed frames faster than one in
    [m_malft] microseconds of sleep, whatever the granularity and whatever
    calls failed. *)
Theorem frames_are_spaced (fuel : nat) (s : St Env) :
  forall pre d1 r1 mid d2 r2 post,
    events (Run fuel s) =
      pre ++ EvWrite d1 r1 :: mid ++ EvWrite d2 r2 :: post ->
    In (EvUsleep (m_malft (this s))) mid.
Proof.
  apply (paced_split (m_malft (this s)) _ false).
  rewrite Run_unfold.
  match goal with
  | |- context [Run_loop fuel ?l ?s2] =>
      destruct (Run_loop_paced fuel l s2) as [Hl _];
      set (r := Run_loop fuel l s2) in *
  end.
  rewrite events_mk. cbn [this] in Hl.
  replace (m_malft (this (final (CheckTimeGranularity s))))
    with (m_malft (this s)) in Hl
    by (rewrite CheckTimeGranularity_unfold; reflexivity).
  rewrite CheckTimeGranularity_unfold at 1. rewrite events_mk.
  destruct (fst (widget_IsOpen _)); cbn [List.app paced];
    destruct (1000 =? _); exact Hl.
Qed.

End ProgramFacts.

(** ** The machine *)

Lemma torn_0 (src dst : DmxBuffer) : torn 0 src dst = dst.
Proof. reflexivity. Qed.

Lemma copy_byte_torn (i : nat) (src dst : DmxBuffer) :
  (i < length src)%nat ->
  copy_byte i src (torn i src dst) = torn (S i) src dst.
Proof.
  intros Hi. unfold copy_byte, torn.
  assert (Hlen : length (firstn i src) = i) by (rewrite length_firstn; lia).
  rewrite firstn_app, Hlen, Nat.sub_diag, firstn_firstn, Nat.min_id.
  simpl firstn at 2. rewrite app_nil_r.
  rewrite skipn_app, Hlen.
  rewrite (skipn_all2 (firstn i src)) by (rewrite Hlen; lia).
  replace (S i - i)%nat with 1%nat by lia.
  rewrite skipn_skipn. simpl app. replace (1 + i)%nat with (S i) by lia.
  rewrite app_assoc. f_equal.
  rewrite <- (firstn_skipn i (firstn (S i) src)).
  rewrite firstn_firstn. replace (Nat.min i (S i)) with i by lia.
  f_equal. replace (S i) with (i + 1)%nat by lia.
  rewrite firstn_skipn_comm. reflexivity.
Qed.

Lemma set_length_torn (src dst : DmxBuffer) :
  set_length (length src) (torn (length src) src dst) = src.
Proof.
  unfold set_length, torn.
  rewrite firstn_all, firstn_app, firstn_all, Nat.sub_diag.
  simpl. apply app_nil_r.
Qed.

Lemma latest_published_snoc (h : list MEvent) (e : MEvent) :
  latest_published (h ++ [e]) = note_published (latest_published h) e.
Proof. unfold latest_published. rewrite fold_left_app. reflexivity. Qed.

Lemma latest_published_ext (h : list MEvent) (evs : list Event) :
  latest_published (h ++ map Ext evs) = latest_published h.
Proof.
  unfold latest_published. rewrite fold_left_app.
  generalize (fold_left note_published h DmxBuffer_new).
  induction evs as [| e evs IH]; intros d; simpl; [reflexivity | apply IH].
Qed.

Lemma note_working_latest (h : list MEvent) :
  forall st,
    fst (fold_left note_working h st) = fold_left note_published h (fst st).
Proof.
  induction h as [| e h IH]; intros st; simpl; [reflexivity | ].
  rewrite IH. destruct e; reflexivity.
Qed.

Lemma working_frame_snoc (h : list MEvent) (e : MEvent) :
  working_frame (h ++ [e]) =
    match e with Acquired => latest_published h | _ => working_frame h end.
Proof.
  unfold working_frame, latest_published. rewrite fold_left_app. simpl.
  destruct e; simpl; try reflexivity.
  apply note_working_latest.
Qed.

Lemma working_frame_ext (h : list MEvent) (evs : list Event) :
  working_frame (h ++ map Ext evs) = working_frame h.
Proof.
  unfold working_frame. rewrite fold_left_app.
  generalize (fold_left note_working h (DmxBuffer_new, DmxBuffer_new)).
  induction evs as [| e evs IH]; intros d; simpl; [reflexivity | apply IH].
Qed.

Lemma writes_right_snoc (h : list MEvent) (e : MEvent) :
  writes_right h ->
  (forall d r, e = Ext (EvWrite d r) -> d = working_frame h) ->
  writes_right (h ++ [e]).
Proof.
  intros Hh He pre d r post E.
  destruct (app_eq_app _ _ _ _ E) as [m [[Eh Em] | [Eh Em]]].
  - destruct m as [| x m]; simpl in Em.
    + rewrite app_nil_r in Eh. subst pre. injection Em as <- _.
      apply (He d r). reflexivity.
    + injection Em as <- _. apply (Hh pre d r m). exact Eh.
  - destruct m as [| x m]; simpl in Em.
    + rewrite app_nil_r in Eh. subst pre. injection Em as -> _.
      apply (He d r). reflexivity.
    + injection Em as _ Em. destruct m; discriminate Em.
Qed.

Lemma writes_right_ext (h : list MEvent) (evs : list Event) :
  writes_right h ->
  forallb (fun e => negb (is_write e)) evs = true ->
  writes_right (h ++ map Ext evs).
Proof.
  revert h. induction evs as [| e evs IH]; intros h Hh Hev; simpl.
  - rewrite app_nil_r. exact Hh.
  - simpl in Hev. apply andb_prop in Hev. destruct Hev as [He Hev].
    change (h ++ Ext e :: map Ext evs) with (h ++ [Ext e] ++ map Ext evs).
    rewrite app_assoc. apply IH; [ | exact Hev].
    apply writes_right_snoc; [exact Hh | ].
    intros d r E. injection E as ->. discriminate He.
Qed.






Section MachineFacts.

Context {Env : Type} {P : Platform Env}.

Lemma exec_eq {A} (m : Prog Env A) (s : Machine Env) :
  let r := m (mkSt (obj s) (world s)) in
  exec m s =
    (result r,
     mkMachine (this (final r)) (m_term_mutex s) (m_buffer_mutex s) (pacer s)
               (locals s) (app s) (env (final r))
               (history s ++ map Ext (events r))).
Proof.
  cbv zeta. unfold exec. destruct (m _) as [[a st] evs]. reflexivity.
Qed.

Lemma Run_init_unfold (s : St Env) :
  let s1 := final (CheckTimeGranularity s) in
  let o := widget_IsOpen (env s1) in
  let u := widget_SetupOutput (snd o) in
  let c := clock_CurrentTime (if fst o then snd o else snd u) in
  Run_init s =
    (mkLocals DmxBuffer_new 0 0 0 0 (fst c) TimeStamp_new,
     mkSt (this s1) (snd c),
     events (CheckTimeGranularity s)
     ++ EvIsOpen (fst o)
        :: (if fst o then [] else [EvSetupOutput (fst u)])
        ++ [EvCurrentTime (fst c)]).
Proof.
  cbv zeta.
  cbv beta delta [Run_init bind IsOpen SetupOutput CurrentTime call ret].
  destruct (CheckTimeGranularity s) as [[x s1] evc].
  cbn [final events result this env fst snd].
  destruct (widget_IsOpen (env s1)) as [o e1].
  cbn [final events result this env fst snd negb].
  destruct o; cbn [final events result this env fst snd negb].
  - destruct (clock_CurrentTime e1) as [t e2]. reflexivity.
  - destruct (widget_SetupOutput e1) as [r0 e2].
    cbn [final events result this env fst snd].
    destruct (clock_CurrentTime e2) as [t e3]. reflexivity.
Qed.

(** The pieces of [Run] that the machine runs leave the object as it is
    and let out no write and no calibration. *)
Lemma check_term_keeps (st : St Env) : this (final (check_term st)) = this st.
Proof. reflexivity. Qed.
Lemma SetBreak_keeps b (st : St Env) : this (final (SetBreak b st)) = this st.
Proof. prog_cases; reflexivity. Qed.
Lemma break_hold_keeps (st : St Env) : this (final (break_hold st)) = this st.
Proof. prog_cases; reflexivity. Qed.
Lemma mab_hold_keeps (st : St Env) : this (final (mab_hold st)) = this st.
Proof. prog_cases; reflexivity. Qed.
Lemma Write_keeps d (st : St Env) : this (final (Write d st)) = this st.
Proof. prog_cases; reflexivity. Qed.
Lemma framesleep_keeps (st : St Env) : this (final (framesleep st)) = this st.
Proof. prog_cases; reflexivity. Qed.
Lemma Join_keeps (st : St Env) : this (final (Join st)) = this st.
Proof. prog_cases; reflexivity. Qed.

Lemma check_term_quiet (st : St Env) : quiet (events (check_term st)) = true.
Proof. reflexivity. Qed.
Lemma SetBreak_quiet b (st : St Env) : quiet (events (SetBreak b st)) = true.
Proof. prog_cases; reflexivity. Qed.
Lemma break_hold_quiet (st : St Env) : quiet (events (break_hold st)) = true.
Proof. prog_cases; reflexivity. Qed.
Lemma mab_hold_quiet (st : St Env) : quiet (events (mab_hold st)) = true.
Proof. prog_cases; reflexivity. Qed.
Lemma framesleep_quiet (st : St Env) : quiet (events (framesleep st)) = true.
Proof. prog_cases; reflexivity. Qed.
Lemma housekeeping_quiet l (st : St Env) :
  quiet (events (housekeeping l st)) = true.
Proof. prog_cases. destruct (TimeInterval_gt _ _); reflexivity. Qed.
Lemma Join_quiet (st : St Env) : quiet (events (Join st)) = true.
Proof. prog_cases; reflexivity. Qed.

Lemma housekeeping_buffer l (st : St Env) :
  buffer (result (housekeeping l st)) = buffer l.
Proof. prog_cases. destruct (TimeInterval_gt _ _); reflexivity. Qed.

Lemma Write_events d (st : St Env) :
  events (Write d st) = [EvWrite d (result (Write d st))].
Proof. prog_cases; reflexivity. Qed.

Lemma Run_init_this (st : St Env) :
  exists g, this (final (Run_init st)) = set_granularity g (this st).
Proof.
  rewrite Run_init_unfold. unfold final at 1. cbn [fst snd this].
  rewrite CheckTimeGranularity_unfold. unfold final. cbn [fst snd this].
  eauto.
Qed.

Lemma Run_init_buffer (st : St Env) :
  buffer (result (Run_init st)) = DmxBuffer_new.
Proof. rewrite Run_init_unfold. reflexivity. Qed.

Lemma Run_init_writes (st : St Env) :
  forallb (fun e => negb (is_write e)) (events (Run_init st)) = true.
Proof.
  rewrite Run_init_unfold. unfold events at 1. cbn [snd].
  rewrite CheckTimeGranularity_unfold. unfold events. cbn [snd].
  destruct (fst (widget_IsOpen _)); reflexivity.
Qed.

Lemma Run_init_calibrates (st : St Env) :
  length (filter is_calibration (map Ext (events (Run_init st)))) = 1%nat.
Proof.
  rewrite Run_init_unfold. unfold events at 1. cbn [snd].
  rewrite CheckTimeGranularity_unfold. unfold events. cbn [snd].
  destruct (fst (widget_IsOpen _)); reflexivity.
Qed.

Lemma quiet_no_write (evs : list Event) :
  quiet evs = true -> forallb (fun e => negb (is_write e)) evs = true.
Proof.
  unfold quiet. induction evs as [| e evs IH]; simpl; [reflexivity | ].
  intros H. apply andb_prop in H. destruct H as [He Hev].
  apply andb_prop in He. destruct He as [-> _]. simpl. auto.
Qed.

Lemma quiet_no_calibration (h : list MEvent) (evs : list Event) :
  quiet evs = true ->
  filter is_calibration (h ++ map Ext evs) = filter is_calibration h.
Proof.
  intros H. rewrite filter_app.
  replace (filter is_calibration (map Ext evs)) with (@nil MEvent);
    [apply app_nil_r | ].
  revert H. unfold quiet.
  induction evs as [| e evs IH]; simpl; [reflexivity | ].
  intros H. apply andb_prop in H. destruct H as [He Hev].
  apply andb_prop in He. destruct He as [_ He].
  destruct e; try discriminate He; simpl; auto.
Qed.

Lemma In_Published_ext f r (h : list MEvent) (evs : list Event) :
  In (Published f r) (h ++ map Ext evs) -> In (Published f r) h.
Proof.
  rewrite in_app_iff, in_map_iff. intros [H | (e & E & _)];
    [exact H | discriminate E].
Qed.

Lemma Inv_start (breakt malft : Z) (e : Env) : Inv (start breakt malft e).
Proof.
  constructor; simpl; auto.
  all: try (intros pre d r post E; destruct pre; discriminate E).
  all: try (intros f r []).
Qed.

Lemma writes_right_grow (h : list MEvent) (evs : list Event) :
  writes_right h ->
  (forall d r, In (EvWrite d r) evs -> d = working_frame h) ->
  writes_right (h ++ map Ext evs).
Proof.
  revert h. induction evs as [| e evs IH]; intros h Hh Hev; simpl.
  - rewrite app_nil_r. exact Hh.
  - change (h ++ Ext e :: map Ext evs) with (h ++ [Ext e] ++ map Ext evs).
    rewrite app_assoc. apply IH.
    + apply writes_right_snoc; [exact Hh | ].
      intros d r E. injection E as ->. apply (Hev d r). left. reflexivity.
    + intros d r Hin. rewrite working_frame_snoc.
      apply (Hev d r). right. exact Hin.
Qed.

Lemma Inv_grow (s : Machine Env) (pc' : PacerPc) (l' : RunLocals) (e' : Env)
      (evs : list Event) :
  Inv s ->
  plain (pacer s) = true -> plain pc' = true ->
  buffer l' = buffer (locals s) ->
  filter is_calibration (map Ext evs) = [] ->
  (forall d r, In (EvWrite d r) evs -> d = buffer (locals s)) ->
  Inv (mkMachine (obj s) (m_term_mutex s) (m_buffer_mutex s) pc' l' (app s) e'
                 (history s ++ map Ext evs)).
Proof.
  intros [Ht Hb Hp Hw Hwr Hret Hcal] Hpc Hpc' Hl Hev Hwrites.
  assert (Ew : buffer (locals s) = working_frame (history s))
    by (destruct (pacer s); try discriminate Hpc; exact Hw).
  constructor; simpl.
  - destruct (pacer s), pc'; try discriminate; exact Ht.
  - destruct (pacer s), pc'; try discriminate; exact Hb.
  - rewrite latest_published_ext. exact Hp.
  - rewrite working_frame_ext, Hl.
    destruct pc'; try discriminate; exact Ew.
  - apply writes_right_grow; [exact Hwr | ].
    intros d r Hin. rewrite <- Ew. eauto.
  - intros f r Hin. apply In_Published_ext in Hin. eauto.
  - rewrite filter_app, Hev, app_nil_r, Hcal.
    destruct (pacer s), pc'; try discriminate; reflexivity.
Qed.

Ltac msimpl :=
  unfold with_obj, with_term_mutex, with_buffer_mutex, with_pacer,
    with_locals, with_app, record; simpl.

(** The same with nothing unfolded but the updates and the fields. *)
Ltac mcbn :=
  cbn [with_obj with_term_mutex with_buffer_mutex with_pacer with_locals
       with_app record obj m_term_mutex m_buffer_mutex pacer locals app
       world history this env fst snd negb is_free result final events
       set_buffer set_term set_granularity set_local_buffer
       m_buffer m_term m_granularity m_breakt m_malft buffer].

Lemma app_not_in_term (s : Machine Env) :
  held_by true (app_holds_term (app s)) (m_term_mutex s) ->
  app_holds_term (app s) = false /\ m_term_mutex s = Some OutputThread.
Proof. unfold held_by. destruct (app_holds_term (app s)); tauto. Qed.

Lemma app_not_in_buffer (s : Machine Env) :
  held_by true (app_holds_buffer (app s)) (m_buffer_mutex s) ->
  app_holds_buffer (app s) = false /\ m_buffer_mutex s = Some OutputThread.
Proof. unfold held_by. destruct (app_holds_buffer (app s)); tauto. Qed.

Lemma free_not_held (b : bool) (m : option Tid) :
  held_by false b m -> is_free m = true -> b = false.
Proof. destruct b, m; simpl; congruence. Qed.

Lemma published_when_free (s : Machine Env) :
  Inv s -> app_holds_buffer (app s) = false ->
  m_buffer (obj s) = latest_published (history s).
Proof.
  intros I Ha. pose proof (inv_published s I) as Hp.
  destruct (app s); try discriminate Ha; exact Hp.
Qed.

Ltac quiet_facts :=
  auto using check_term_quiet, SetBreak_quiet, break_hold_quiet,
    mab_hold_quiet, framesleep_quiet, housekeeping_quiet, Join_quiet.

Ltac grow_quiet Epc :=
  apply Inv_grow; simpl; rewrite ?Epc; auto using housekeeping_buffer;
  [ apply (quiet_no_calibration []); quiet_facts
  | intros d r Hin;
    match goal with
    | H : In _ (events ?p) |- _ =>
        let Q := fresh "Q" in
        assert (Q : quiet (events p) = true) by quiet_facts;
        apply quiet_no_write in Q; rewrite forallb_forall in Q;
        specialize (Q _ H); discriminate Q
    end ].

Lemma Inv_pacer_step (s : Machine Env) : Inv s -> Inv (pacer_step s).
Proof.
  intros I. pose proof I as [Ht Hb Hp Hw Hwr Hret Hcal].
  unfold pacer_step.
  destruct (pacer s) eqn:Epc; simpl in *.
  all: rewrite ?exec_eq; simpl.
  all: rewrite ?check_term_keeps, ?SetBreak_keeps, ?break_hold_keeps,
         ?mab_hold_keeps, ?Write_keeps, ?framesleep_keeps,
         ?housekeeping_keeps_this; simpl.
  all: try match goal with
       | |- context [if negb ?b then _ else _] => destruct b; simpl
       end.
  all: msimpl.
  all: try (grow_quiet Epc; fail).
  - (* P_entry *)
    destruct (Run_init_this (mkSt (obj s) (world s))) as [g Hg]. rewrite Hg.
    constructor; simpl; auto.
    + rewrite latest_published_ext. exact Hp.
    + rewrite working_frame_ext, Run_init_buffer. symmetry. exact Hw.
    + apply writes_right_ext; [exact Hwr | apply Run_init_writes].
    + intros f r Hin. apply In_Published_ext in Hin. eauto.
    + rewrite filter_app, length_app, Hcal, Run_init_calibrates. reflexivity.
  - (* P_lock_term *)
    destruct (is_free (m_term_mutex s)) eqn:Ef; [ | exact I].
    pose proof (free_not_held _ _ Ht Ef) as Ea.
    constructor; simpl; rewrite ?Epc; auto.
    rewrite Ea. reflexivity.
  - (* P_read_term *)
    apply app_not_in_term in Ht. destruct Ht as [Ea Em].
    rewrite app_nil_r.
    constructor; simpl; auto.
    + rewrite Ea. destruct (m_term (obj s)); reflexivity.
    + destruct (m_term (obj s)); exact Hb.
    + destruct (m_term (obj s)); exact Hw.
    + destruct (m_term (obj s)); exact Hcal.
  - (* P_lock_buffer *)
    destruct (is_free (m_buffer_mutex s)) eqn:Ef; [ | exact I].
    pose proof (free_not_held _ _ Hb Ef) as Ea.
    constructor; simpl; rewrite ?Epc; auto.
    + rewrite Ea. reflexivity.
    + split; [lia | ]. rewrite torn_0. exact Hw.
  - (* P_copy *)
    apply app_not_in_buffer in Hb. destruct Hb as [Ea Em].
    pose proof (published_when_free s I Ea) as Eb.
    destruct Hw as [Hi Hw]. rewrite Eb, Hw.
    destruct (Nat.ltb_spec i (length (latest_published (history s)))).
    + constructor; simpl; auto.
      * rewrite Ea, Em. reflexivity.
      * split; [lia | ]. apply copy_byte_torn. assumption.
    + assert (i = length (latest_published (history s))) as -> by lia.
      constructor; simpl; auto.
      * rewrite Ea, Em. reflexivity.
      * apply set_length_torn.
  - (* P_unlock_buffer *)
    apply app_not_in_buffer in Hb. destruct Hb as [Ea Em].
    constructor; simpl; auto.
    + rewrite Ea. reflexivity.
    + rewrite latest_published_snoc. exact Hp.
    + rewrite working_frame_snoc. exact Hw.
    + apply writes_right_snoc; [exact Hwr | discriminate].
    + intros f r Hin. apply in_app_or in Hin.
      destruct Hin as [Hin | [Hin | []]]; [eauto | discriminate Hin].
    + rewrite filter_app, length_app, Hcal. reflexivity.
  - (* P_write, done *)
    apply Inv_grow; simpl; rewrite ?Epc; auto; rewrite Write_events.
    + reflexivity.
    + intros d r [E | []]. injection E as <- _. reflexivity.
  - (* P_write, failed *)
    apply Inv_grow; simpl; rewrite ?Epc; auto; rewrite Write_events.
    + reflexivity.
    + intros d r [E | []]. injection E as <- _. reflexivity.
  - (* P_framesleep *)
    apply (Inv_grow s P_housekeeping (locals s) _
                    [EvUsleep (m_malft (obj s))]);
      simpl; rewrite ?Epc; auto.
    intros d r [E | []]. discriminate E.
  - (* P_exit *)
    exact I.
Qed.

Lemma pacer_not_in_buffer (s : Machine Env) :
  held_by (pacer_holds_buffer (pacer s)) true (m_buffer_mutex s) ->
  pacer_holds_buffer (pacer s) = false /\ m_buffer_mutex s = Some Application.
Proof. unfold held_by. destruct (pacer_holds_buffer (pacer s)); tauto. Qed.

Lemma pacer_not_in_term (s : Machine Env) :
  held_by (pacer_holds_term (pacer s)) true (m_term_mutex s) ->
  pacer_holds_term (pacer s) = false /\ m_term_mutex s = Some Application.
Proof. unfold held_by. destruct (pacer_holds_term (pacer s)); tauto. Qed.

Lemma free_not_held_output (b : bool) (m : option Tid) :
  held_by b false m -> is_free m = true -> b = false.
Proof. destruct b, m; simpl; congruence. Qed.

Lemma Inv_app_step (s : Machine Env) : Inv s -> Inv (app_step s).
Proof.
  intros I. pose proof I as [Ht Hb Hp Hw Hwr Hret Hcal].
  unfold app_step.
  destruct (app s) eqn:Eapp; simpl in *.
  - (* A_idle *)
    exact I.
  - (* A_write_lock *)
    destruct (is_free (m_buffer_mutex s)) eqn:Ef; [ | exact I].
    pose proof (free_not_held_output _ _ Hb Ef) as Ea.
    msimpl. constructor; simpl; rewrite ?Eapp; auto.
    + rewrite Ea. reflexivity.
    + split; [lia | exact Hp].
  - (* A_write_copy *)
    apply pacer_not_in_buffer in Hb. destruct Hb as [Ea Em].
    destruct Hp as [Hi Hp]. rewrite Hp.
    destruct (Nat.ltb_spec i (length f)); msimpl.
    + constructor; simpl; rewrite ?Eapp; auto.
      * rewrite Ea, Em. reflexivity.
      * split; [lia | ]. apply copy_byte_torn. assumption.
    + assert (i = length f) as -> by lia.
      constructor; simpl; rewrite ?Eapp; auto.
      * rewrite Ea, Em. reflexivity.
      * apply set_length_torn.
  - (* A_write_return *)
    apply pacer_not_in_buffer in Hb. destruct Hb as [Ea Em].
    msimpl. constructor; simpl; rewrite ?Eapp; auto.
    + rewrite Ea. reflexivity.
    + rewrite latest_published_snoc. exact Hp.
    + rewrite working_frame_snoc.
      destruct (pacer s); try discriminate Ea; exact Hw.
    + apply writes_right_snoc; [exact Hwr | discriminate].
    + intros f0 r Hin. apply in_app_or in Hin.
      destruct Hin as [Hin | [Hin | []]]; [eauto | ].
      injection Hin as _ <-. reflexivity.
    + rewrite filter_app, length_app, Hcal. simpl. lia.
  - (* A_stop_lock *)
    destruct (is_free (m_term_mutex s)) eqn:Ef; [ | exact I].
    pose proof (free_not_held_output _ _ Ht Ef) as Ea.
    msimpl. constructor; simpl; rewrite ?Eapp; auto.
    rewrite Ea. reflexivity.
  - (* A_stop_set *)
    msimpl. constructor; simpl; rewrite ?Eapp; auto.
  - (* A_stop_unlock *)
    apply pacer_not_in_term in Ht. destruct Ht as [Ea Em].
    msimpl. constructor; simpl; rewrite ?Eapp; auto.
    rewrite Ea. reflexivity.
  - (* A_stop_join *)
    destruct (pacer s) eqn:Epc; try exact I.
    rewrite exec_eq. msimpl. rewrite Join_keeps. simpl.
    constructor; simpl; rewrite ?Eapp, ?Epc; auto.
    + rewrite latest_published_snoc, latest_published_ext. exact Hp.
    + rewrite working_frame_snoc, working_frame_ext. exact Hw.
    + apply writes_right_snoc; [ | discriminate].
      apply writes_right_ext; [exact Hwr | ].
      apply quiet_no_write, Join_quiet.
    + intros f r Hin. apply in_app_or in Hin.
      destruct Hin as [Hin | [Hin | []]]; [ | discriminate Hin].
      apply In_Published_ext in Hin. eauto.
    + rewrite filter_app, length_app, quiet_no_calibration, Hcal
        by apply Join_quiet.
      reflexivity.
Qed.

Lemma Inv_step (c : Choice) (s : Machine Env) : Inv s -> Inv (step c s).
Proof.
  intros I. destruct c; simpl.
  - apply Inv_pacer_step, I.
  - apply Inv_app_step, I.
  - destruct (app s) eqn:Eapp; try exact I.
    destruct I as [Ht Hb Hp Hw Hwr Hret Hcal]. rewrite Eapp in *.
    msimpl. constructor; simpl; auto.
  - destruct (app s) eqn:Eapp; try exact I.
    destruct I as [Ht Hb Hp Hw Hwr Hret Hcal]. rewrite Eapp in *.
    msimpl. constructor; simpl; auto.
Qed.

Lemma run_snoc (sched : list Choice) (c : Choice) (s : Machine Env) :
  run (sched ++ [c]) s = step c (run sched s).
Proof. unfold run. rewrite fold_left_app. reflexivity. Qed.

Lemma Inv_run (sched : list Choice) (s : Machine Env) :
  Inv s -> Inv (run sched s).
Proof.
  revert s. induction sched as [| c sched IH]; intros s I; simpl.
  - exact I.
  - apply IH, Inv_step, I.
Qed.

Lemma Inv_reachable (breakt malft : Z) (e : Env) (s : Machine Env) :
  reachable breakt malft e s -> Inv s.
Proof. intros [sched ->]. apply Inv_run, Inv_start. Qed.


(** What a move can do to the object: nothing, or the calibration at the
    entry of [Run], or a byte of [WriteDMX] into the published buffer, or
    the flag set by [Stop]. *)
Lemma step_obj (c : Choice) (s : Machine Env) :
  obj (step c s) = obj s \/
  (c = RunOutput /\ pacer s = P_entry /\
   exists g, obj (step c s) = set_granularity g (obj s)) \/
  (c = RunApplication /\ (exists f i, app s = A_write_copy f i) /\
   exists d, obj (step c s) = set_buffer d (obj s)) \/
  (c = RunApplication /\ app s = A_stop_set /\
   obj (step c s) = set_term true (obj s)).
Proof.
  destruct c; simpl.
  - unfold pacer_step. destruct (pacer s) eqn:Epc.
    all: rewrite ?exec_eq; msimpl.
    all: rewrite ?check_term_keeps, ?SetBreak_keeps, ?break_hold_keeps,
           ?mab_hold_keeps, ?Write_keeps, ?framesleep_keeps,
           ?housekeeping_keeps_this; simpl.
    all: repeat match goal with
         | |- context [if ?b then _ else _] => destruct b; simpl
         end.
    all: try (left; reflexivity).
    right. left. split; [reflexivity | ]. split; [reflexivity | ].
    apply Run_init_this.
  - unfold app_step. destruct (app s) eqn:Eapp.
    all: try match goal with
         | |- context [match pacer ?x with _ => _ end] => destruct (pacer x)
         end.
    all: rewrite ?exec_eq; msimpl; rewrite ?Join_keeps; simpl.
    all: repeat match goal with
         | |- context [if ?b then _ else _] => destruct b; simpl
         end.
    all: try (left; reflexivity).
    all: try (right; right; left; split; [reflexivity | ];
              split; eauto; fail).
    right. right. right. auto.
  - destruct (app s); left; reflexivity.
  - destruct (app s); left; reflexivity.
Qed.

Lemma step_keeps_entry (c : Choice) (s : Machine Env) :
  pacer s <> P_entry -> pacer (step c s) <> P_entry.
Proof.
  intros Hpc. destruct c; simpl.
  - unfold pacer_step. destruct (pacer s) eqn:Epc; try congruence.
    all: rewrite ?exec_eq; msimpl.
    all: repeat match goal with
         | |- context [if ?b then _ else _] => destruct b; simpl
         end.
    all: rewrite ?Epc; discriminate.
  - unfold app_step. destruct (app s).
    all: try match goal with
         | |- context [match pacer ?x with _ => _ end] =>
             destruct (pacer x) eqn:Epc
         end.
    all: rewrite ?exec_eq; msimpl.
    all: repeat match goal with
         | |- context [if ?b then _ else _] => destruct b; simpl
         end.
    all: rewrite ?Epc; congruence.
  - destruct (app s); exact Hpc.
  - destruct (app s); exact Hpc.
Qed.

Lemma run_app (a b : list Choice) (s : Machine Env) :
  run (a ++ b) s = run b (run a s).
Proof. unfold run. apply fold_left_app. Qed.

(** [WriteDMX] in the machine: once it has the mutex it copies the frame
    byte by byte, gives the mutex back and returns [true]. *)
Lemma WriteDMX_copies (f b0 : DmxBuffer) :
  forall n i (s : Machine Env),
    (i + n = length f)%nat ->
    app s = A_write_copy f i ->
    m_buffer (obj s) = torn i f b0 ->
    run (repeat RunApplication n) s =
      with_app (A_write_copy f (length f))
               (with_obj (set_buffer (torn (length f) f b0) (obj s)) s).
Proof.
  induction n as [| n IH]; intros i s Hi Eapp Eb.
  - replace i with (length f) in * by lia.
    destruct s as [o tm bm pc l a w h]. destruct o. simpl in *.
    subst. reflexivity.
  - cbn [repeat]. change (run (RunApplication :: repeat RunApplication n) s)
      with (run (repeat RunApplication n) (app_step s)).
    unfold app_step. rewrite Eapp.
    destruct (Nat.ltb_spec i (length f)); [ | lia].
    rewrite (IH (S i)); [reflexivity | lia | reflexivity | ].
    mcbn. rewrite Eb. apply copy_byte_torn. assumption.
Qed.

Lemma WriteDMX_returns (f : DmxBuffer) (s : Machine Env) :
  app s = A_write_lock f -> m_buffer_mutex s = None ->
  run (repeat RunApplication (length f + 3)) s =
    mkMachine (set_buffer f (obj s)) (m_term_mutex s) None (pacer s)
              (locals s) A_idle (world s)
              (history s ++ [Published f true]).
Proof.
  intros Eapp Em.
  replace (repeat RunApplication (length f + 3))
    with (repeat RunApplication 1 ++ repeat RunApplication (length f)
          ++ repeat RunApplication 2).
  2:{ rewrite <- !repeat_app. f_equal. lia. }
  rewrite !run_app.
  change (run (repeat RunApplication 1) s) with (app_step s).
  unfold app_step at 1. rewrite Eapp, Em. cbn [is_free].
  rewrite (WriteDMX_copies f (m_buffer (obj s)) (length f) 0);
    [ | lia | reflexivity | reflexivity].
  cbn [run fold_left step repeat].
  unfold app_step at 2. mcbn. rewrite Nat.ltb_irrefl.
  unfold app_step. mcbn. rewrite set_length_torn.
  reflexivity.
Qed.

(** [Stop] in the machine: once it has the mutex it sets the flag and
    gives the mutex back; what is left is to wait for the output thread. *)
Lemma Stop_sets_term (s : Machine Env) :
  app s = A_stop_lock -> m_term_mutex s = None ->
  run [RunApplication; RunApplication; RunApplication] s =
    mkMachine (set_term true (obj s)) None (m_buffer_mutex s) (pacer s)
              (locals s) A_stop_join (world s) (history s).
Proof.
  intros Eapp Em. cbn [run fold_left step].
  unfold app_step at 3. rewrite Eapp, Em. cbn [is_free].
  unfold app_step at 2. mcbn.
  unfold app_step. mcbn. reflexivity.
Qed.

(** C6: [WriteDMX] makes the published buffer a copy of the frame it is
    given and returns [true], as a member function and move by move in
    the machine; there it writes the buffer only while it holds
    [m_buffer_mutex], the output thread is then outside its own copy, and
    no call has ever returned [false]. *)
Theorem WriteDMX_publishes :
  (forall (data : DmxBuffer) (st : St Env),
     WriteDMX data st =
       (true, mkSt (set_buffer data (this st)) (env st), [])) /\
  (forall (f : DmxBuffer) (s : Machine Env),
     app s = A_write_lock f -> m_buffer_mutex s = None ->
     run (repeat RunApplication (length f + 3)) s =
       mkMachine (set_buffer f (obj s)) (m_term_mutex s) None (pacer s)
                 (locals s) A_idle (world s)
                 (history s ++ [Published f true])) /\
  (forall breakt malft e (s : Machine Env),
     reachable breakt malft e s ->
     (app_holds_buffer (app s) = true ->
        m_buffer_mutex s = Some Application /\
        pacer_holds_buffer (pacer s) = false) /\
     (forall c, m_buffer (obj (step c s)) <> m_buffer (obj s) ->
        m_buffer_mutex s = Some Application) /\
     (forall f, app s = A_write_return f -> m_buffer (obj s) = f) /\
     (forall f r, In (Published f r) (history s) -> r = true)).
Proof.
  split; [reflexivity | ]. split; [exact WriteDMX_returns | ].
  intros breakt malft e s Hreach. apply Inv_reachable in Hreach.
  pose proof (inv_buffer_mutex s Hreach) as Hb.
  assert (Hheld : app_holds_buffer (app s) = true ->
                  m_buffer_mutex s = Some Application /\
                  pacer_holds_buffer (pacer s) = false).
  { intros Ha. rewrite Ha in Hb. apply pacer_not_in_buffer in Hb. tauto. }
  split; [exact Hheld | ]. split; [ | split].
  - intros c Hc.
    destruct (step_obj c s)
      as [E | [(_ & _ & g & E) | [(_ & (f & i & Ea) & d & E) | (_ & _ & E)]]].
    + rewrite E in Hc. congruence.
    + rewrite E in Hc. simpl in Hc. congruence.
    + apply Hheld. rewrite Ea. reflexivity.
    + rewrite E in Hc. simpl in Hc. congruence.
  - intros f Ea. pose proof (inv_published s Hreach) as Hp.
    rewrite Ea in Hp. exact Hp.
  - exact (inv_returns s Hreach).
Qed.

(** C9: the flag is false in the object just constructed; [Stop] sets it,
    a second [Stop] and the destructor leave the object as the first
    [Stop] left it; no move of either thread takes a set flag back; in the
    machine [Stop] sets the flag in its three moves after the lock is
    free, and the one move that changes the flag is the move of [Stop]
    inside [m_term_mutex]. *)
Theorem term_flag_monotone :
  (forall breakt malft, m_term (UartDmxThread_new breakt malft) = false) /\
  (forall st : St Env,
     m_term (this (final (Stop st))) = true /\
     this (final (Stop (final (Stop st)))) = this (final (Stop st)) /\
     this (final (UartDmxThread_delete st)) = this (final (Stop st))) /\
  (forall (c : Choice) (s : Machine Env),
     m_term (obj s) = true -> m_term (obj (step c s)) = true) /\
  (forall s : Machine Env,
     app s = A_stop_lock -> m_term_mutex s = None ->
     m_term (obj (run [RunApplication; RunApplication; RunApplication] s))
       = true) /\
  (forall breakt malft e (s : Machine Env) (c : Choice),
     reachable breakt malft e s ->
     m_term (obj (step c s)) <> m_term (obj s) ->
     m_term_mutex s = Some Application /\ app s = A_stop_set /\
     m_term (obj (step c s)) = true).
Proof.
  split; [reflexivity | ]. split; [ | split; [ | split]].
  - intros st. unfold UartDmxThread_delete. prog_cases.
    repeat split; reflexivity.
  - intros c s Ht.
    destruct (step_obj c s)
      as [E | [(_ & _ & g & E) | [(_ & _ & d & E) | (_ & _ & E)]]];
      rewrite E; simpl; auto.
  - intros s Ea Em. rewrite (Stop_sets_term s Ea Em). reflexivity.
  - intros breakt malft e s c Hreach Hc. apply Inv_reachable in Hreach.
    destruct (step_obj c s)
      as [E | [(_ & _ & g & E) | [(_ & _ & d & E) | (_ & Ea & E)]]];
      try (rewrite E in Hc; simpl in Hc; congruence).
    pose proof (inv_term_mutex s Hreach) as Hm. rewrite Ea in Hm.
    apply pacer_not_in_term in Hm. rewrite E. simpl. tauto.
Qed.

(** C4 (as amended): the calibration reads the clock, sleeps 1000 us,
    reads the clock again, and makes the granularity BAD when the
    millisecond reading of the interval is more than 3, GOOD otherwise.
    The reading is in whole milliseconds: the granularity is BAD when
    4000 us or more have passed between the two readings of the clock and
    GOOD when less than 4000 us have passed, also when more than 3000.
    [Run] does it first and nothing after it calibrates or writes the
    granularity: not the rest of [Run], and no move of the machine once
    the output thread is past the entry of [Run]; a history holds one
    calibration from then on and none before. *)
Theorem calibration_once :
  (forall st : St Env,
     let c1 := clock_CurrentTime (env st) in
     let c2 := clock_CurrentTime (sys_usleep 1000 (snd c1)) in
     let g := if InMilliSeconds (fst c2 - fst c1) >? 3 then BAD else GOOD in
     events (CheckTimeGranularity st) =
       [EvCurrentTime (fst c1); EvUsleep 1000; EvCurrentTime (fst c2);
        EvInfoGranularity g] /\
     m_granularity (this (final (CheckTimeGranularity st))) = g) /\
  (reads_whole_milliseconds P ->
   forall st : St Env,
     let c1 := clock_CurrentTime (env st) in
     let c2 := clock_CurrentTime (sys_usleep 1000 (snd c1)) in
     let elapsed := TimeStamp_sub (fst c2) (fst c1) in
     (elapsed >= 4000 ->
        m_granularity (this (final (CheckTimeGranularity st))) = BAD /\
        In (EvInfoGranularity BAD) (events (CheckTimeGranularity st))) /\
     (elapsed < 4000 ->
        m_granularity (this (final (CheckTimeGranularity st))) = GOOD /\
        In (EvInfoGranularity GOOD) (events (CheckTimeGranularity st)))) /\
  (forall fuel (st : St Env),
     exists rest,
       events (Run fuel st) = events (CheckTimeGranularity st) ++ rest /\
       (forall g, ~ In (EvInfoGranularity g) rest) /\
       this (final (Run fuel st)) = this (final (CheckTimeGranularity st))) /\
  (forall (c : Choice) (s : Machine Env),
     pacer s <> P_entry ->
     m_granularity (obj (step c s)) = m_granularity (obj s) /\
     pacer (step c s) <> P_entry) /\
  (forall breakt malft e (s : Machine Env),
     reachable breakt malft e s ->
     length (filter is_calibration (history s)) =
       match pacer s with P_entry => 0%nat | _ => 1%nat end).
Proof.
  split; [ | split; [ | split; [ | split]]].
  - intros st. cbv zeta. rewrite CheckTimeGranularity_unfold.
    split; reflexivity.
  - intros Hms st. cbv zeta. rewrite CheckTimeGranularity_unfold, Hms.
    unfold whole_milliseconds, TimeStamp_sub, final, events. cbn [fst snd].
    set (d := fst (clock_CurrentTime _) - fst (clock_CurrentTime _)).
    split; intros Hd.
    + assert (E : (d / 1000 >? 3) = true).
      { assert (4 <= d / 1000) by (apply Z.div_le_lower_bound; lia).
        apply Z.gtb_lt. lia. }
      rewrite E. split; [reflexivity | simpl; tauto].
    + assert (E : (d / 1000 >? 3) = false).
      { assert (d / 1000 < 4) by (apply Z.div_lt_upper_bound; lia).
        destruct (Z.gtb_spec (d / 1000) 3) as [Hgt | Hle];
          [lia | reflexivity]. }
      rewrite E. split; [reflexivity | simpl; tauto].
  - intros fuel st. rewrite Run_unfold.
    match goal with
    | |- context [Run_loop ?n ?l ?s] =>
        destruct (Run_loop_events n l s) as [Hev Hth];
        set (r := Run_loop n l s) in *
    end.
    rewrite forallb_forall in Hev.
    unfold events at 1, final at 1. cbn [fst snd].
    eexists. split; [reflexivity | ]. split; [ | exact Hth].
    intros g [Hin | Hin]; [discriminate Hin | ].
    apply in_app_or in Hin. destruct Hin as [Hin | [Hin | Hin]].
    + destruct (fst (widget_IsOpen _)); simpl in Hin; intuition discriminate.
    + discriminate Hin.
    + specialize (Hev _ Hin). discriminate Hev.
  - intros c s Hpc. split; [ | apply step_keeps_entry, Hpc].
    destruct (step_obj c s)
      as [E | [(_ & Ep & _) | [(_ & _ & d & E) | (_ & _ & E)]]];
      try (rewrite E; reflexivity).
    contradiction.
  - intros breakt malft e s Hreach. apply Inv_reachable in Hreach.
    exact (inv_calibrated s Hreach).
Qed.

(** ** The output thread of the machine against [Run_cycle] *)

Lemma acquire_copies (src b0 : DmxBuffer) :
  forall n i (s : Machine Env),
    (i + n = length src)%nat ->
    pacer s = P_copy i ->
    m_buffer (obj s) = src ->
    buffer (locals s) = torn i src b0 ->
    run (repeat RunOutput n) s =
      with_pacer (P_copy (length src))
        (with_locals (set_local_buffer (torn (length src) src b0) (locals s))
                     s).
Proof.
  induction n as [| n IH]; intros i s Hi Epc Esrc Eb.
  - replace i with (length src) in * by lia.
    destruct s as [o tm bm pc l a w h]. destruct l. simpl in *.
    subst. reflexivity.
  - cbn [repeat]. change (run (RunOutput :: repeat RunOutput n) s)
      with (run (repeat RunOutput n) (pacer_step s)).
    unfold pacer_step. rewrite Epc, Esrc.
    destruct (Nat.ltb_spec i (length src)); [ | lia].
    rewrite (IH (S i)); [reflexivity | lia | reflexivity | exact Esrc | ].
    mcbn. rewrite Eb. apply copy_byte_torn. assumption.
Qed.

(** The copy-out: the lock taken, the bytes copied, the length set, the
    lock given back. *)
Lemma machine_acquire (s : Machine Env) :
  pacer s = P_lock_buffer -> m_buffer_mutex s = None ->
  run (repeat RunOutput (length (m_buffer (obj s)) + 3)) s =
    mkMachine (obj s) (m_term_mutex s) None P_break_start
              (result (acquire (locals s) (mkSt (obj s) (world s))))
              (app s) (world s) (history s ++ [Acquired]).
Proof.
  intros Epc Em.
  replace (repeat RunOutput (length (m_buffer (obj s)) + 3))
    with (repeat RunOutput 1 ++ repeat RunOutput (length (m_buffer (obj s)))
          ++ repeat RunOutput 2).
  2:{ rewrite <- !repeat_app. f_equal. lia. }
  rewrite !run_app.
  change (run (repeat RunOutput 1) s) with (pacer_step s).
  unfold pacer_step at 1. rewrite Epc, Em. cbn [is_free].
  rewrite (acquire_copies (m_buffer (obj s)) (buffer (locals s))
             (length (m_buffer (obj s))) 0);
    [ | lia | reflexivity | reflexivity | reflexivity].
  cbn [run fold_left step repeat].
  unfold pacer_step at 2. mcbn. rewrite Nat.ltb_irrefl.
  unfold pacer_step. mcbn. rewrite set_length_torn.
  reflexivity.
Qed.

Lemma run_cons (c : Choice) (sched : list Choice) (s : Machine Env) :
  run (c :: sched) s = run sched (step c s).
Proof. reflexivity. Qed.

#[local] Arguments run : simpl never.

Ltac machine_step :=
  rewrite run_cons; cbn [step]; unfold pacer_step; cbn [pacer];
  unfold exec; prog_unfold; simpl;
  repeat match goal with
         | H : _ = (_, _) |- _ => rewrite H; simpl
         | H : granularity_eqb _ _ = _ |- _ => rewrite H; simpl
         | H : TimeInterval_gt _ _ = _ |- _ => rewrite H; simpl
         end;
  msimpl.

Ltac machine_done :=
  unfold run; cbn [fold_left]; rewrite <- ?app_assoc; reflexivity.

(** The steps, the frame sleep and the report: moved through alone, the
    output thread leaves what [transmit], [framesleep] and [housekeeping]
    leave. *)
Lemma machine_transmit (s : Machine Env) :
  pacer s = P_break_start ->
  exists n,
    (n <= 7)%nat /\
    run (repeat RunOutput n) s =
      let r := (l <- transmit (locals s) ;; framesleep ;; housekeeping l)%prog
                 (mkSt (obj s) (world s)) in
      mkMachine (this (final r)) (m_term_mutex s) (m_buffer_mutex s)
                P_lock_term (result r) (app s) (env (final r))
                (history s ++ map Ext (events r)).
Proof.
  intros Epc. destruct s as [o tm bm pc l a w h]. simpl in Epc. subst pc.
  cbv zeta. cbn [obj world locals m_term_mutex m_buffer_mutex app history].
  prog_cases.
  all: destruct (TimeInterval_gt _ _) eqn:Egt; simpl.
  all: try match goal with
           | H : true = false |- _ => discriminate H
           | H : false = true |- _ => discriminate H
           end.
  all: first [ exists 3%nat; split; [lia | ]; cbn [repeat];
               do 3 machine_step; machine_done
             | exists 5%nat; split; [lia | ]; cbn [repeat];
               do 5 machine_step; machine_done
             | exists 7%nat; split; [lia | ]; cbn [repeat];
               do 7 machine_step; machine_done ].
Qed.

Lemma Run_cycle_after_acquire (l : RunLocals) (st : St Env) :
  Run_cycle l st =
    (l' <- transmit (result (acquire l st)) ;;
     framesleep ;; housekeeping l')%prog st.
Proof.
  unfold Run_cycle. unfold bind at 1. rewrite acquire_spec.
  unfold result at 1. cbn [fst].
  destruct ((l' <- transmit _ ;; framesleep ;; housekeeping l')%prog st)
    as [[l2 s2] ev2].
  reflexivity.
Qed.

(** A turn of the loop in the machine: from the lock of the buffer to the
    head of the loop the output thread, moving alone, does what
    [Run_cycle] does. *)
Lemma machine_cycle (s : Machine Env) :
  pacer s = P_lock_buffer -> m_buffer_mutex s = None ->
  exists n,
    run (repeat RunOutput n) s =
      let r := Run_cycle (locals s) (mkSt (obj s) (world s)) in
      mkMachine (this (final r)) (m_term_mutex s) None P_lock_term
                (result r) (app s) (env (final r))
                (history s ++ Acquired :: map Ext (events r)).
Proof.
  intros Epc Em.
  pose proof (machine_acquire s Epc Em) as Ha.
  destruct (machine_transmit
              (mkMachine (obj s) (m_term_mutex s) None P_break_start
                 (result (acquire (locals s) (mkSt (obj s) (world s))))
                 (app s) (world s) (history s ++ [Acquired])) eq_refl)
    as (n & _ & Hn).
  exists (length (m_buffer (obj s)) + 3 + n)%nat.
  rewrite repeat_app, run_app, Ha, Hn.
  cbv zeta. cbn [obj world locals m_term_mutex m_buffer_mutex app history].
  rewrite Run_cycle_after_acquire, <- app_assoc. reflexivity.
Qed.

(** ** The end of [Run] *)

Ltac split_ifs :=
  repeat match goal with
         | |- context [if ?b then _ else _] => destruct b eqn:?; simpl
         end.

Lemma step_term (c : Choice) (s : Machine Env) :
  m_term (obj s) = true -> m_term (obj (step c s)) = true.
Proof.
  intros Ht.
  destruct (step_obj c s)
    as [E | [(_ & _ & g & E) | [(_ & _ & d & E) | (_ & _ & E)]]];
    rewrite E; simpl; auto.
Qed.

Lemma app_step_pacer (s : Machine Env) : pacer (app_step s) = pacer s.
Proof.
  unfold app_step. destruct (app s).
  all: try match goal with
       | |- context [match pacer ?x with _ => _ end] =>
           destruct (pacer x) eqn:Epc
       end.
  all: rewrite ?exec_eq; msimpl.
  all: split_ifs.
  all: rewrite ?Epc; reflexivity.
Qed.

Lemma pacer_step_app (s : Machine Env) : app (pacer_step s) = app s.
Proof.
  unfold pacer_step. destruct (pacer s).
  all: rewrite ?exec_eq; msimpl.
  all: split_ifs.
  all: reflexivity.
Qed.

Lemma step_exit (c : Choice) (s : Machine Env) :
  pacer (step c s) = P_exit ->
  pacer s = P_exit \/
  (c = RunOutput /\ pacer s = P_read_term /\ m_term (obj s) = true /\
   obj (step c s) = obj s).
Proof.
  destruct c; simpl.
  - unfold pacer_step. destruct (pacer s) eqn:Epc.
    all: rewrite ?exec_eq; msimpl.
    all: split_ifs.
    all: intros H; try discriminate H.
    all: try (left; reflexivity).
    all: try congruence.
    right. auto.
  - rewrite app_step_pacer. auto.
  - destruct (app s); auto.
  - destruct (app s); auto.
Qed.

Lemma exit_flag (sched : list Choice) (breakt malft : Z) (e : Env) :
  pacer (run sched (start breakt malft e)) = P_exit ->
  m_term (obj (run sched (start breakt malft e))) = true.
Proof.
  induction sched as [| c sched IH] using rev_ind.
  - intros H. discriminate H.
  - rewrite run_snoc. intros H.
    destruct (step_exit _ _ H) as [Hx | (_ & _ & Ht & Eo)].
    + apply step_term, IH, Hx.
    + rewrite Eo. exact Ht.
Qed.

Lemma exit_stays (c : Choice) (s : Machine Env) :
  pacer s = P_exit -> pacer (step c s) = P_exit.
Proof.
  intros Hx. destruct c; simpl.
  - unfold pacer_step. rewrite Hx. exact Hx.
  - rewrite app_step_pacer. exact Hx.
  - destruct (app s); exact Hx.
  - destruct (app s); exact Hx.
Qed.

Lemma run_exit_stays (sched : list Choice) :
  forall s : Machine Env,
    pacer s = P_exit -> pacer (run sched s) = P_exit.
Proof.
  induction sched as [| c sched IH]; intros s H; [exact H | ].
  rewrite run_cons. apply IH, exit_stays, H.
Qed.

Lemma Join_events (st : St Env) :
  events (Join st) = [EvJoin (result (Join st))].
Proof. prog_cases; reflexivity. Qed.

Lemma step_after_exit (c : Choice) (s : Machine Env) :
  pacer s = P_exit ->
  exists t,
    history (step c s) = history s ++ t /\
    forallb after_exit_event t = true.
Proof.
  intros Hx. destruct c; simpl.
  - unfold pacer_step. rewrite Hx. exists []. rewrite app_nil_r. auto.
  - unfold app_step. destruct (app s) eqn:Eapp.
    all: rewrite ?Hx, ?exec_eq; msimpl.
    all: split_ifs.
    all: try (exists []; rewrite app_nil_r; split; reflexivity).
    + exists [Published f true]. split; reflexivity.
    + rewrite Join_events. eexists. rewrite <- app_assoc.
      split; reflexivity.
  - exists []. rewrite app_nil_r. destruct (app s); auto.
  - exists []. rewrite app_nil_r. destruct (app s); auto.
Qed.

(** X9: [Run] is left only through the flag, and for good.  Where the
    output thread has returned from [Run], [m_term] is set; whatever the
    two threads do afterwards the output thread stays out of [Run], and
    the history takes up no further call to the widget, no sleep and no
    reading of the clock: publishes only, and the return of [Stop] with
    its [Join]. *)
Theorem Run_exit_is_final (breakt malft : Z) (e : Env) (s : Machine Env) :
  reachable breakt malft e s -> pacer s = P_exit ->
  m_term (obj s) = true /\
  forall sched,
    pacer (run sched s) = P_exit /\
    exists t,
      history (run sched s) = history s ++ t /\
      forallb after_exit_event t = true.
Proof.
  intros [sched0 ->] Hx. split; [apply exit_flag, Hx | ].
  generalize dependent (run sched0 (start breakt malft e)).
  clear sched0. intros s Hx sched. revert s Hx.
  induction sched as [| c sched IH]; intros s Hx.
  - split; [exact Hx | ]. exists []. rewrite app_nil_r. auto.
  - rewrite run_cons.
    destruct (step_after_exit c s Hx) as (t1 & E1 & H1).
    destruct (IH (step c s) (exit_stays c s Hx)) as (Hp & t2 & E2 & H2).
    split; [exact Hp | ]. exists (t1 ++ t2).
    rewrite E2, E1, <- app_assoc, forallb_app, H1, H2. auto.
Qed.

(** ** After the flag is set *)

Lemma count_writes_app (h t : list MEvent) :
  count_writes (h ++ t) = (count_writes h + count_writes t)%nat.
Proof. unfold count_writes. rewrite filter_app. apply length_app. Qed.

Lemma count_writes_none (evs : list Event) :
  forallb (fun e => negb (is_write e)) evs = true ->
  count_writes (map Ext evs) = 0%nat.
Proof.
  unfold count_writes. induction evs as [| e evs IH]; [reflexivity | ].
  simpl. intros H. apply andb_prop in H. destruct H as [He Hev].
  destruct e; try discriminate He; simpl; auto.
Qed.

Lemma count_writes_quiet (evs : list Event) :
  quiet evs = true -> count_writes (map Ext evs) = 0%nat.
Proof. intros H. apply count_writes_none, quiet_no_write, H. Qed.

Lemma pacer_step_writes_left (s : Machine Env) :
  m_term (obj s) = true ->
  (count_writes (history (pacer_step s)) + writes_left (pacer (pacer_step s))
   <= count_writes (history s) + writes_left (pacer s))%nat.
Proof.
  intros Ht. unfold pacer_step. destruct (pacer s) eqn:Epc.
  all: rewrite ?exec_eq; msimpl.
  all: rewrite ?Ht.
  all: split_ifs.
  all: rewrite ?count_writes_app.
  all: rewrite ?(count_writes_none _ (Run_init_writes _)),
         ?(count_writes_quiet _ (SetBreak_quiet _ _)),
         ?(count_writes_quiet _ (break_hold_quiet _)),
         ?(count_writes_quiet _ (mab_hold_quiet _)),
         ?(count_writes_quiet _ (framesleep_quiet _)),
         ?(count_writes_quiet _ (housekeeping_quiet _ _)),
         ?Write_events.
  all: unfold count_writes; simpl; rewrite ?Epc; simpl; try lia.
  match goal with
  | H : result (check_term _) = false |- _ =>
      change (m_term (obj s) = false) in H; congruence
  end.
Qed.

Lemma app_step_writes (s : Machine Env) :
  count_writes (history (app_step s)) = count_writes (history s).
Proof.
  unfold app_step. destruct (app s).
  all: try match goal with
       | |- context [match pacer ?x with _ => _ end] => destruct (pacer x)
       end.
  all: rewrite ?exec_eq; msimpl.
  all: split_ifs.
  all: rewrite ?count_writes_app, ?(count_writes_quiet _ (Join_quiet _)).
  all: unfold count_writes; simpl; lia.
Qed.

Lemma step_writes_left (c : Choice) (s : Machine Env) :
  m_term (obj s) = true ->
  (count_writes (history (step c s)) + writes_left (pacer (step c s))
   <= count_writes (history s) + writes_left (pacer s))%nat.
Proof.
  intros Ht. destruct c; simpl.
  - apply pacer_step_writes_left, Ht.
  - rewrite app_step_writes, app_step_pacer. lia.
  - destruct (app s); simpl; lia.
  - destruct (app s); simpl; lia.
Qed.

(** X10: [Stop] takes effect within the turn.  From the moment the flag
    is set the output thread writes at most one more frame to the widget,
    the frame of the turn it is in, and none if it stands between the
    frame sleep and the copy-out of the next turn: whatever the two
    threads do. *)
Theorem one_write_after_flag (s : Machine Env) (sched : list Choice) :
  m_term (obj s) = true ->
  (count_writes (history (run sched s))
   <= count_writes (history s) + writes_left (pacer s))%nat.
Proof.
  revert s. induction sched as [| c sched IH]; intros s Ht.
  - change (run [] s) with s. lia.
  - rewrite run_cons.
    pose proof (IH (step c s) (step_term c s Ht)) as H1.
    pose proof (step_writes_left c s Ht) as H2. lia.
Qed.

(** ** The two threads do not wait for each other *)

Lemma pacer_step_waits (s : Machine Env) :
  pacer (pacer_step s) = pacer s ->
  pacer s = P_exit \/
  (pacer s = P_lock_term /\ is_free (m_term_mutex s) = false) \/
  (pacer s = P_lock_buffer /\ is_free (m_buffer_mutex s) = false).
Proof.
  unfold pacer_step. destruct (pacer s) eqn:Epc.
  all: rewrite ?exec_eq; msimpl.
  all: split_ifs.
  all: intros H; try discriminate H; auto.
  injection H as H. lia.
Qed.

Lemma app_step_waits (s : Machine Env) :
  app (app_step s) = app s ->
  app s = A_idle \/
  ((exists f, app s = A_write_lock f) /\ is_free (m_buffer_mutex s) = false) \/
  (app s = A_stop_lock /\ is_free (m_term_mutex s) = false) \/
  (app s = A_stop_join /\ pacer s <> P_exit).
Proof.
  unfold app_step. destruct (app s) eqn:Eapp.
  all: try match goal with
       | |- context [match pacer ?x with _ => _ end] =>
           destruct (pacer x) eqn:Epc
       end.
  all: rewrite ?exec_eq; msimpl.
  all: split_ifs.
  all: intros H; try discriminate H; eauto 6.
  all: try (right; right; right; split; [reflexivity | discriminate]).
  injection H as H. lia.
Qed.

(** X11: no deadlock.  In every state the machine can reach, an output
    thread that cannot move (it waits for a mutex) finds the application
    thread able to move, and an application thread that cannot move (it
    waits for a mutex, or in [Join] for the output thread) finds the
    output thread able to move: no mutex is taken inside the block of the
    other, and [Stop] has given [m_term_mutex] back before it joins. *)
Theorem no_deadlock (breakt malft : Z) (e : Env) (s : Machine Env) :
  reachable breakt malft e s ->
  (pacer s <> P_exit -> pacer (step RunOutput s) = pacer s ->
   app (step RunApplication s) <> app s) /\
  (app s <> A_idle -> app (step RunApplication s) = app s ->
   pacer (step RunOutput s) <> pacer s).
Proof.
  intros Hreach. apply Inv_reachable in Hreach.
  pose proof (inv_term_mutex s Hreach) as Ht.
  pose proof (inv_buffer_mutex s Hreach) as Hb.
  simpl. split.
  - intros Hx Hp Ha. apply pacer_step_waits in Hp. apply app_step_waits in Ha.
    destruct Hp as [Hp | [(Hp & Hf) | (Hp & Hf)]]; [contradiction | | ];
      rewrite Hp in *; simpl in *.
    + destruct Ha as [Ha | [((f & Ha) & _) | [(Ha & _) | (Ha & _)]]];
        rewrite Ha in *; simpl in *; rewrite Ht in Hf; discriminate Hf.
    + destruct Ha as [Ha | [((f & Ha) & _) | [(Ha & _) | (Ha & _)]]];
        rewrite Ha in *; simpl in *; rewrite Hb in Hf; discriminate Hf.
  - intros Hi Ha Hp. apply pacer_step_waits in Hp. apply app_step_waits in Ha.
    destruct Ha as [Ha | [((f & Ha) & Hf) | [(Ha & Hf) | (Ha & Hx)]]];
      [contradiction | | | ].
    + destruct Hp as [Hp | [(Hp & _) | (Hp & _)]];
        rewrite Ha, Hp in *; simpl in *; rewrite Hb in Hf; discriminate Hf.
    + destruct Hp as [Hp | [(Hp & _) | (Hp & _)]];
        rewrite Ha, Hp in *; simpl in *; rewrite Ht in Hf; discriminate Hf.
    + destruct Hp as [Hp | [(Hp & Hf) | (Hp & Hf)]]; [contradiction | | ];
        rewrite Ha, Hp in *; simpl in *.
      * rewrite Ht in Hf. discriminate Hf.
      * rewrite Hb in Hf. discriminate Hf.
Qed.

(** ** [Stop] returns *)

Lemma moves_to_exit_0 (s : Machine Env) :
  moves_to_exit s = 0%nat -> pacer s = P_exit.
Proof.
  unfold moves_to_exit. destruct (pacer s); simpl; intros H;
    first [reflexivity | discriminate H].
Qed.

Lemma moves_to_exit_bound (s : Machine Env) :
  (moves_to_exit s <= length (m_buffer (obj s)) + 12)%nat.
Proof. unfold moves_to_exit. destruct (pacer s); lia. Qed.

Lemma pacer_step_buffer (s : Machine Env) :
  m_buffer (obj (pacer_step s)) = m_buffer (obj s).
Proof.
  destruct (step_obj RunOutput s)
    as [E | [(_ & _ & g & E) | [(Hc & _) | (Hc & _)]]];
    try discriminate Hc; simpl in E; rewrite E; reflexivity.
Qed.

Ltac ltb_facts :=
  repeat match goal with
         | H : (_ <? _)%nat = true |- _ => apply Nat.ltb_lt in H
         | H : (_ <? _)%nat = false |- _ => apply Nat.ltb_ge in H
         end.

Lemma pacer_step_closer (s : Machine Env) :
  Inv s -> m_term (obj s) = true ->
  app_holds_term (app s) = false -> app_holds_buffer (app s) = false ->
  pacer s <> P_exit ->
  (moves_to_exit (pacer_step s) < moves_to_exit s)%nat.
Proof.
  intros I Ht Hat Hab Hx.
  pose proof (inv_term_mutex s I) as Hmt.
  pose proof (inv_buffer_mutex s I) as Hmb.
  rewrite Hat in Hmt. rewrite Hab in Hmb.
  unfold moves_to_exit. rewrite pacer_step_buffer.
  unfold pacer_step. destruct (pacer s) eqn:Epc; simpl in Hmt, Hmb.
  all: rewrite ?exec_eq; msimpl.
  all: rewrite ?Hmt, ?Hmb, ?Ht; simpl.
  all: split_ifs; ltb_facts.
  all: try lia.
  all: try congruence.
  match goal with
  | H : result (check_term _) = false |- _ =>
      change (m_term (obj s) = false) in H; congruence
  end.
Qed.

Lemma exit_or_not (pc : PacerPc) : pc = P_exit \/ pc <> P_exit.
Proof. destruct pc; first [left; reflexivity | right; discriminate]. Qed.

Lemma app_step_joining (s : Machine Env) :
  app s = A_stop_join -> pacer s <> P_exit -> app_step s = s.
Proof.
  intros Ha Hx. unfold app_step. rewrite Ha.
  destruct (pacer s); congruence.
Qed.

Lemma joining_step (c : Choice) (s : Machine Env) :
  joining s -> joining (step c s).
Proof.
  intros (I & Ht & Hj).
  split; [apply Inv_step, I | ]. split; [apply step_term, Ht | ].
  destruct Hj as [Hx | Ha]; [left; apply exit_stays, Hx | ].
  destruct c; simpl.
  - right. rewrite pacer_step_app. exact Ha.
  - destruct (exit_or_not (pacer s)) as [Hx | Hx].
    + left. rewrite app_step_pacer. exact Hx.
    + right. rewrite app_step_joining; assumption.
  - right. rewrite Ha. exact Ha.
  - right. rewrite Ha. exact Ha.
Qed.

Lemma moves_of_output_cons (c : Choice) (sched : list Choice) :
  moves_of_output (c :: sched) =
    ((if is_RunOutput c then 1 else 0) + moves_of_output sched)%nat.
Proof.
  unfold moves_of_output. simpl. destruct (is_RunOutput c); reflexivity.
Qed.

Lemma joining_progress (sched : list Choice) :
  forall s : Machine Env,
    joining s -> (moves_to_exit s <= moves_of_output sched)%nat ->
    pacer (run sched s) = P_exit.
Proof.
  induction sched as [| c sched IH]; intros s J Hn.
  - change (run [] s) with s. apply moves_to_exit_0.
    change (moves_of_output []) with 0%nat in Hn. lia.
  - rewrite run_cons. destruct (exit_or_not (pacer s)) as [Hx | Hx].
    + apply run_exit_stays, exit_stays, Hx.
    + pose proof (joining_step c s J) as J'.
      destruct J as (I & Ht & [Hx' | Ha]); [contradiction | ].
      apply IH; [exact J' | ].
      rewrite moves_of_output_cons in Hn.
      destruct c; cbn [is_RunOutput step] in *.
      * assert (Hlt : (moves_to_exit (pacer_step s) < moves_to_exit s)%nat)
          by (apply pacer_step_closer; try assumption; rewrite Ha; reflexivity).
        lia.
      * rewrite app_step_joining by assumption. exact Hn.
      * rewrite Ha. exact Hn.
      * rewrite Ha. exact Hn.
Qed.

Lemma step_history (c : Choice) (s : Machine Env) :
  exists t, history (step c s) = history s ++ t.
Proof.
  destruct c; simpl.
  - unfold pacer_step. destruct (pacer s).
    all: rewrite ?exec_eq; msimpl.
    all: split_ifs.
    all: first [ eexists; reflexivity
               | exists []; rewrite app_nil_r; reflexivity ].
  - unfold app_step. destruct (app s).
    all: try match goal with
         | |- context [match pacer ?x with _ => _ end] => destruct (pacer x)
         end.
    all: rewrite ?exec_eq; msimpl.
    all: split_ifs.
    all: first [ eexists; reflexivity
               | exists []; rewrite app_nil_r; reflexivity
               | eexists; rewrite <- app_assoc; reflexivity ].
  - exists []. rewrite app_nil_r. destruct (app s); reflexivity.
  - exists []. rewrite app_nil_r. destruct (app s); reflexivity.
Qed.

Lemma step_join (c : Choice) (s : Machine Env) :
  app s = A_stop_join ->
  (app (step c s) = A_stop_join /\
   exists t, history (step c s) = history s ++ t) \/
  (exists r, history (step c s) = history s ++ [Ext (EvJoin r); Stopped r]).
Proof.
  intros Ha. destruct c.
  - left. split; [ | apply step_history].
    simpl. rewrite pacer_step_app. exact Ha.
  - destruct (exit_or_not (pacer s)) as [Hx | Hx].
    + right. simpl. unfold app_step. rewrite Ha, Hx.
      rewrite exec_eq. msimpl. rewrite Join_events.
      eexists. rewrite <- app_assoc. reflexivity.
    + left. split; [ | apply step_history].
      simpl. rewrite app_step_joining; assumption.
  - left. split; [ | apply step_history]. simpl. rewrite Ha. exact Ha.
  - left. split; [ | apply step_history]. simpl. rewrite Ha. exact Ha.
Qed.

Lemma run_join (sched : list Choice) (s : Machine Env) :
  app s = A_stop_join ->
  (app (run sched s) = A_stop_join /\
   exists t, history (run sched s) = history s ++ t) \/
  (exists pre r post,
     history (run sched s) =
       history s ++ pre ++ Ext (EvJoin r) :: Stopped r :: post).
Proof.
  intros Ha. induction sched as [| c sched IH] using rev_ind.
  - left. split; [exact Ha | ]. exists []. rewrite app_nil_r. reflexivity.
  - rewrite run_snoc.
    destruct IH as [(Ha' & t & Et) | (pre & r & post & E)].
    + destruct (step_join c _ Ha') as [(Ha'' & t' & Et') | (r & E')].
      * left. split; [exact Ha'' | ]. exists (t ++ t').
        rewrite Et', Et, app_assoc. reflexivity.
      * right. exists t, r, []. rewrite E', Et, <- app_assoc. reflexivity.
    + right. destruct (step_history c (run sched s)) as [t' Et'].
      exists pre, r, (post ++ t'). rewrite Et', E.
      rewrite <- !app_assoc. reflexivity.
Qed.

Lemma step_join_flag (c : Choice) (s : Machine Env) :
  app (step c s) = A_stop_unlock \/ app (step c s) = A_stop_join ->
  (app s = A_stop_unlock \/ app s = A_stop_join) \/
  m_term (obj (step c s)) = true.
Proof.
  destruct c; simpl.
  - rewrite pacer_step_app. auto.
  - unfold app_step. destruct (app s) eqn:Eapp.
    all: try match goal with
         | |- context [match pacer ?x with _ => _ end] => destruct (pacer x)
         end.
    all: rewrite ?exec_eq; msimpl.
    all: split_ifs.
    all: intros [H | H]; try discriminate H; try congruence; auto.
  - destruct (app s) eqn:Eapp; simpl; intros [H | H];
      try discriminate H; try congruence; auto.
  - destruct (app s) eqn:Eapp; simpl; intros [H | H];
      try discriminate H; try congruence; auto.
Qed.

Lemma join_flag (sched : list Choice) (breakt malft : Z) (e : Env) :
  app (run sched (start breakt malft e)) = A_stop_unlock \/
  app (run sched (start breakt malft e)) = A_stop_join ->
  m_term (obj (run sched (start breakt malft e))) = true.
Proof.
  induction sched as [| c sched IH] using rev_ind.
  - intros [H | H]; discriminate H.
  - rewrite run_snoc. intros H.
    destruct (step_join_flag _ _ H) as [H' | H'];
      [apply step_term, IH, H' | exact H'].
Qed.

(** X12: [Stop] returns.  Once [Stop] has set the flag and waits in
    [Join], any schedule that lets the output thread make as many moves as
    the rest of its turn and the look at the flag take (at most the length
    of the published buffer plus 12) brings the output thread to the end
    of [Run], whatever else is scheduled and whatever the widget answers;
    the next move of the application thread then returns from [Join], and
    [Stop] returns what [Join] answered. *)
Theorem Stop_returns (breakt malft : Z) (e : Env) (s : Machine Env)
        (sched : list Choice) :
  reachable breakt malft e s ->
  app s = A_stop_join ->
  (moves_to_exit s <= moves_of_output sched)%nat ->
  (moves_to_exit s <= length (m_buffer (obj s)) + 12)%nat /\
  pacer (run sched s) = P_exit /\
  exists pre r post,
    history (run (sched ++ [RunApplication]) s) =
      history s ++ pre ++ Ext (EvJoin r) :: Stopped r :: post.
Proof.
  intros Hr Ha Hn. split; [apply moves_to_exit_bound | ].
  assert (J : joining s).
  { split; [exact (Inv_reachable _ _ _ _ Hr) | ].
    split; [ | right; exact Ha].
    destruct Hr as [sched0 ->]. apply join_flag. right. exact Ha. }
  pose proof (joining_progress sched s J Hn) as Hx. split; [exact Hx | ].
  rewrite run_snoc.
  destruct (run_join sched s Ha) as [(Ha' & t & Et) | (pre & r & post & E)].
  - simpl. unfold app_step. rewrite Ha', Hx.
    rewrite exec_eq. msimpl. rewrite Join_events, Et.
    eexists t, _, []. rewrite <- !app_assoc. reflexivity.
  - destruct (step_history RunApplication (run sched s)) as [t' Et'].
    exists pre, r, (post ++ t'). rewrite Et', E.
    rewrite <- !app_assoc. reflexivity.
Qed.

(** ** The granularity and the timing in the loop *)

Lemma Run_init_granularity (st : St Env) :
  m_granularity (this (final (Run_init st))) <> UNKNOWN.
Proof.
  rewrite Run_init_unfold. unfold final at 1. cbn [fst snd this].
  rewrite CheckTimeGranularity_unfold. unfold final. cbn [fst snd this].
  unfold set_granularity. cbn [m_granularity].
  destruct (_ >? _); discriminate.
Qed.

Lemma step_granularity (c : Choice) (s : Machine Env) :
  pacer s <> P_entry ->
  m_granularity (obj (step c s)) = m_granularity (obj s).
Proof.
  intros Hpc.
  destruct (step_obj c s)
    as [E | [(_ & Ep & _) | [(_ & _ & d & E) | (_ & _ & E)]]];
    try (rewrite E; reflexivity).
  contradiction.
Qed.

Lemma step_entry (c : Choice) (s : Machine Env) :
  pacer s = P_entry ->
  (pacer (step c s) = P_entry /\
   m_granularity (obj (step c s)) = m_granularity (obj s)) \/
  (pacer (step c s) <> P_entry /\
   m_granularity (obj (step c s)) <> UNKNOWN).
Proof.
  intros Hpc. destruct c.
  - right. simpl. unfold pacer_step. rewrite Hpc.
    rewrite exec_eq. msimpl. split; [discriminate | ].
    apply Run_init_granularity.
  - left. simpl. rewrite app_step_pacer. split; [exact Hpc | ].
    destruct (step_obj RunApplication s)
      as [E | [(Hc & _) | [(_ & _ & d & E) | (_ & _ & E)]]];
      try discriminate Hc; simpl in E; rewrite E; reflexivity.
  - left. simpl. destruct (app s); auto.
  - left. simpl. destruct (app s); auto.
Qed.

(** X13: the granularity is UNKNOWN exactly until the output thread has
    calibrated.  In every state the machine can reach it is UNKNOWN while
    the output thread has not entered [Run], and GOOD or BAD ever after:
    no turn of the loop sees UNKNOWN, so a turn that does not hold its
    break is a turn of a thread found BAD. *)
Theorem granularity_known (breakt malft : Z) (e : Env) (s : Machine Env) :
  reachable breakt malft e s ->
  (pacer s = P_entry /\ m_granularity (obj s) = UNKNOWN) \/
  (pacer s <> P_entry /\
   (m_granularity (obj s) = GOOD \/ m_granularity (obj s) = BAD)).
Proof.
  intros [sched ->].
  assert (H : (pacer (run sched (start breakt malft e)) = P_entry /\
               m_granularity (obj (run sched (start breakt malft e)))
                 = UNKNOWN) \/
              (pacer (run sched (start breakt malft e)) <> P_entry /\
               m_granularity (obj (run sched (start breakt malft e)))
                 <> UNKNOWN)).
  { induction sched as [| c sched IH] using rev_ind.
    - left. split; reflexivity.
    - rewrite run_snoc. destruct IH as [(Hp & Hg) | (Hp & Hg)].
      + destruct (step_entry c _ Hp) as [(Hp' & Hg') | (Hp' & Hg')].
        * left. split; [exact Hp' | congruence].
        * right. split; assumption.
      + right. split; [apply step_keeps_entry, Hp | ].
        rewrite step_granularity; assumption. }
  destruct H as [H | (Hp & Hg)]; [left; exact H | right].
  split; [exact Hp | ].
  destruct (m_granularity _); [congruence | left | right]; reflexivity.
Qed.

Lemma step_config (c : Choice) (s : Machine Env) :
  m_breakt (obj (step c s)) = m_breakt (obj s) /\
  m_malft (obj (step c s)) = m_malft (obj s).
Proof.
  destruct (step_obj c s)
    as [E | [(_ & _ & g & E) | [(_ & _ & d & E) | (_ & _ & E)]]];
    rewrite E; split; reflexivity.
Qed.

Lemma step_sleeps (c : Choice) (s : Machine Env) :
  exists t,
    history (step c s) = history s ++ t /\
    Forall (is_configured_sleep (m_breakt (obj s)) (m_malft (obj s))) t.
Proof.
  destruct c; simpl.
  - unfold pacer_step. destruct (pacer s).
    { rewrite exec_eq. msimpl. eexists. split; [reflexivity | ].
      rewrite Run_init_unfold. unfold events at 1. cbn [snd].
      rewrite CheckTimeGranularity_unfold. unfold events. cbn [snd].
      destruct (fst (widget_IsOpen _)); simpl;
        repeat first [apply Forall_nil | apply Forall_cons]; simpl; auto. }
    all: rewrite ?exec_eq; msimpl; split_ifs.
    all: try (exists []; rewrite app_nil_r; split; [reflexivity | constructor];
              fail).
    all: eexists; (split; [reflexivity | ]).
    all: prog_cases; try destruct (TimeInterval_gt _ _); simpl.
    all: repeat first [apply Forall_nil | apply Forall_cons]; simpl; auto.
  - unfold app_step. destruct (app s).
    all: try match goal with
         | |- context [match pacer ?x with _ => _ end] => destruct (pacer x)
         end.
    all: rewrite ?exec_eq; msimpl; split_ifs.
    all: try (exists []; rewrite app_nil_r; split; [reflexivity | constructor];
              fail).
    all: try rewrite <- app_assoc.
    all: eexists; (split; [reflexivity | ]).
    all: prog_cases; simpl.
    all: repeat first [apply Forall_nil | apply Forall_cons]; simpl; auto.
  - exists []. rewrite app_nil_r. destruct (app s); split; auto.
  - exists []. rewrite app_nil_r. destruct (app s); split; auto.
Qed.

(** X14: the timing of a thread is the timing it was built with.  In
    every state the machine can reach the break time and the frame time of
    the object are the two numbers given to the constructor, and every
    sleep the output thread has asked for is one of four: the 1000 us of
    the calibration, the break time, [DMX_MAB], the frame time. *)
Theorem sleeps_are_configured (breakt malft : Z) (e : Env) (s : Machine Env) :
  reachable breakt malft e s ->
  m_breakt (obj s) = breakt /\
  m_malft (obj s) = malft /\
  Forall (is_configured_sleep breakt malft) (history s).
Proof.
  intros [sched ->].
  induction sched as [| c sched IH] using rev_ind.
  - repeat split. constructor.
  - rewrite run_snoc. destruct IH as (Eb & Em & Hh).
    destruct (step_config c (run sched (start breakt malft e))) as [Eb' Em'].
    destruct (step_sleeps c (run sched (start breakt malft e)))
      as (t & Et & Ht).
    rewrite Eb', Em', Et. rewrite Eb, Em in Ht.
    repeat split; try assumption.
    apply Forall_app. split; assumption.
Qed.

(** ** Inside the mutexes *)

Lemma held_by_output (o a : bool) (m : option Tid) :
  held_by o a m -> m = Some OutputThread -> o = true /\ a = false.
Proof. destruct o, a; simpl; intros H E; subst; try easy. Qed.

Lemma held_by_application (o a : bool) (m : option Tid) :
  held_by o a m -> m = Some Application -> o = false /\ a = true.
Proof. destruct o, a; simpl; intros H E; subst; try easy. Qed.

Lemma pacer_step_inside (s : Machine Env) :
  pacer_holds_term (pacer s) = true \/ pacer_holds_buffer (pacer s) = true ->
  filter is_ext (history (pacer_step s)) = filter is_ext (history s).
Proof.
  unfold pacer_step. destruct (pacer s).
  all: intros [H | H]; try discriminate H.
  all: rewrite ?exec_eq; msimpl; split_ifs.
  all: rewrite ?filter_app; simpl; rewrite ?app_nil_r; reflexivity.
Qed.

Lemma app_step_inside (s : Machine Env) :
  app_holds_term (app s) = true \/ app_holds_buffer (app s) = true ->
  filter is_ext (history (app_step s)) = filter is_ext (history s).
Proof.
  unfold app_step. destruct (app s).
  all: intros [H | H]; try discriminate H.
  all: msimpl; split_ifs.
  all: rewrite ?filter_app; simpl; rewrite ?app_nil_r; reflexivity.
Qed.

(** X15: nothing is called inside a mutex.  In every state the machine
    can reach, a move of the thread that holds [m_term_mutex] or
    [m_buffer_mutex] makes no call that leaves the thread: no call to the
    widget, no sleep, no reading of the clock, no log line, no [Join].
    The other thread waits for a mutex only as long as a look at the flag
    or a copy of the buffer takes. *)
Theorem no_call_inside_mutex (breakt malft : Z) (e : Env) (s : Machine Env) :
  reachable breakt malft e s ->
  (m_term_mutex s = Some OutputThread \/ m_buffer_mutex s = Some OutputThread ->
   filter is_ext (history (step RunOutput s)) = filter is_ext (history s)) /\
  (m_term_mutex s = Some Application \/ m_buffer_mutex s = Some Application ->
   filter is_ext (history (step RunApplication s)) =
     filter is_ext (history s)).
Proof.
  intros Hreach. apply Inv_reachable in Hreach.
  pose proof (inv_term_mutex s Hreach) as Ht.
  pose proof (inv_buffer_mutex s Hreach) as Hb.
  split; intros [E | E]; simpl.
  - apply pacer_step_inside. left.
    exact (proj1 (held_by_output _ _ _ Ht E)).
  - apply pacer_step_inside. right.
    exact (proj1 (held_by_output _ _ _ Hb E)).
  - apply app_step_inside. left.
    exact (proj2 (held_by_application _ _ _ Ht E)).
  - apply app_step_inside. right.
    exact (proj2 (held_by_application _ _ _ Hb E)).
Qed.

(** ** The order of the frames *)

Lemma published_frames_app (h t : list MEvent) :
  published_frames (h ++ t) = published_frames h ++ flat_map published_frame t.
Proof. unfold published_frames. rewrite flat_map_app. reflexivity. Qed.

Lemma index_facts (h : list MEvent) :
  let st := fold_left note_index h (0%nat, 0%nat) in
  S (fst st) = length (published_frames h) /\
  (snd st <= fst st)%nat /\
  nth_error (published_frames h) (fst st) = Some (latest_published h) /\
  nth_error (published_frames h) (snd st) = Some (working_frame h).
Proof.
  cbv zeta. induction h as [| x h IH] using rev_ind.
  - repeat split; reflexivity || auto.
  - destruct IH as (Hl & Hi & Hn & Hw).
    rewrite fold_left_app, published_frames_app, latest_published_snoc,
      working_frame_snoc.
    set (st := fold_left note_index h (0%nat, 0%nat)) in *.
    assert (Hlt : (snd st < length (published_frames h))%nat) by lia.
    assert (Hlt' : (fst st < length (published_frames h))%nat) by lia.
    destruct x as [ev | f r | | r]; cbn [fold_left note_index flat_map
      published_frame note_published fst snd List.app].
    + rewrite app_nil_r. auto.
    + rewrite length_app. cbn [length].
      repeat split; try lia.
      * rewrite nth_error_app2 by lia.
        replace (S (fst st) - length (published_frames h))%nat with 0%nat
          by lia.
        reflexivity.
      * rewrite nth_error_app1 by exact Hlt. exact Hw.
    + rewrite app_nil_r. auto.
    + rewrite app_nil_r. auto.
Qed.

Lemma acquired_index_mono (h t : list MEvent) :
  (acquired_index h <= acquired_index (h ++ t))%nat.
Proof.
  induction t as [| x t IH] using rev_ind.
  - rewrite app_nil_r. lia.
  - rewrite app_assoc. unfold acquired_index in *.
    rewrite (fold_left_app _ (h ++ t)).
    pose proof (index_facts (h ++ t)) as (_ & Hi & _). cbv zeta in Hi.
    destruct x; cbn [fold_left note_index fst snd]; lia.
Qed.

Lemma working_frame_published (pre rest : list MEvent) :
  nth_error (published_frames (pre ++ rest)) (acquired_index pre) =
    Some (working_frame pre).
Proof.
  pose proof (index_facts pre) as (Hl & Hi & _ & Hw). cbv zeta in *.
  rewrite published_frames_app, nth_error_app1; [exact Hw | ].
  unfold acquired_index. lia.
Qed.

(** X16: the frames go out in the order they were published.  Of two
    writes to the widget the later one never carries a frame published
    before the frame of the earlier one: with the published frames
    numbered in their order (the empty buffer the object starts with is
    number 0), the two frames written are number [i] and number [j] for
    some [i <= j]. *)
Theorem frames_in_order (breakt malft : Z) (e : Env) (s : Machine Env) :
  reachable breakt malft e s ->
  forall pre d1 r1 mid d2 r2 post,
    history s =
      pre ++ Ext (EvWrite d1 r1) :: mid ++ Ext (EvWrite d2 r2) :: post ->
    exists i j,
      (i <= j)%nat /\
      nth_error (published_frames (history s)) i = Some d1 /\
      nth_error (published_frames (history s)) j = Some d2.
Proof.
  intros Hreach pre d1 r1 mid d2 r2 post Eh.
  apply Inv_reachable in Hreach. pose proof (inv_writes s Hreach) as Hwr.
  assert (E1 : d1 = working_frame pre) by (apply (Hwr _ d1 r1 _ Eh)).
  assert (Eh2 : history s =
                (pre ++ Ext (EvWrite d1 r1) :: mid)
                ++ Ext (EvWrite d2 r2) :: post)
    by (rewrite Eh, <- app_assoc; reflexivity).
  assert (E2 : d2 = working_frame (pre ++ Ext (EvWrite d1 r1) :: mid))
    by (apply (Hwr _ d2 r2 _ Eh2)).
  exists (acquired_index pre),
         (acquired_index (pre ++ Ext (EvWrite d1 r1) :: mid)).
  split; [apply acquired_index_mono | ]. split.
  - rewrite Eh, E1. apply working_frame_published.
  - rewrite Eh2, E2. apply working_frame_published.
Qed.

End MachineFacts.

(** ** The theorems at work on the simulated platform *)

Example burst_history :
  history (run Sim.burst Sim.machine0) =
    [Published Sim.frame1 true; Published Sim.frame2 true;
     Ext (EvCurrentTime 0); Ext (EvUsleep 1000); Ext (EvCurrentTime 1000);
     Ext (EvInfoGranularity GOOD); Ext (EvIsOpen true);
     Ext (EvCurrentTime 1000);
     Acquired; Ext (EvSetBreak true true);
     Published Sim.frame3 true;
     Ext (EvUsleep 100); Ext (EvSetBreak false true); Ext (EvUsleep 16);
     Ext (EvWrite Sim.frame2 true)].
Proof. vm_compute. reflexivity. Qed.

Lemma burst_reachable :
  reachable 100 23000 Sim.env0 (run Sim.burst Sim.machine0).
Proof. exists Sim.burst. reflexivity. Qed.



(** A widget whose first [SetBreak(true)] fails: after 44 turns the report
    logs one break-start error and no frame. *)
Lemma Run_reports_no_frames_witness :
  exists f,
    In (EvInfoStats f 1 0 0)
       (events (Run 44 (Sim.state UNKNOWN [] [false]))) /\
    f = 0.
Proof.
  exists 0.
  assert (Hin : In (EvInfoStats 0 1 0 0)
                   (events (Run 44 (Sim.state UNKNOWN [] [false])))).
  { vm_compute. repeat (first [left; reflexivity | right]). }
  split; [exact Hin | ].
  exact (Run_reports_no_frames 44 (Sim.state UNKNOWN [] [false]) 0 1 0 0 Hin).
Defined.

Example Run_cycle_counts_no_frame :
  frames (result (Run_cycle Sim.fresh (Sim.state GOOD Sim.frame1 []))) = 0 /\
  events (Run_cycle Sim.fresh (Sim.state GOOD Sim.frame1 [])) =
    [EvSetBreak true true; EvUsleep 100; EvSetBreak false true; EvUsleep 16;
     EvWrite Sim.frame1 true; EvUsleep 23000; EvCurrentTime 23116].
Proof. vm_compute. split; reflexivity. Qed.

Lemma fresh_in_range : counters_in_range Sim.fresh.
Proof. unfold counters_in_range, INT_MIN, INT_MAX. simpl. lia. Qed.

(** Each of the three failures, on a script that makes it happen. *)
Lemma transmit_error_accounting_witness :
  counters_in_range Sim.fresh /\
  counted Sim.fresh
    (result (transmit Sim.fresh (Sim.state GOOD Sim.frame1 [false]))) 1 0 0 /\
  counted Sim.fresh
    (result (transmit Sim.fresh (Sim.state GOOD Sim.frame1 [true; false])))
    0 1 0 /\
  counted Sim.fresh
    (result
       (transmit Sim.fresh (Sim.state GOOD Sim.frame1 [true; true; false])))
    0 0 1.
Proof.
  split; [exact fresh_in_range | ]. split; [ | split].
  - apply (transmit_error_accounting Sim.fresh
             (Sim.state GOOD Sim.frame1 [false]) fresh_in_range).
    simpl. tauto.
  - apply (transmit_error_accounting Sim.fresh
             (Sim.state GOOD Sim.frame1 [true; false]) fresh_in_range).
    simpl. tauto.
  - apply (transmit_error_accounting Sim.fresh
             (Sim.state GOOD Sim.frame1 [true; true; false]) fresh_in_range).
    exists (buffer Sim.fresh). simpl. tauto.
Defined.

Lemma Sim_reads_whole_milliseconds : reads_whole_milliseconds Sim.platform.
Proof. intros d. reflexivity. Qed.

(** A sleep that overshoots by 5 ms takes 6000 us and is found BAD; one
    that overshoots by 2500 us takes 3500 us and is found GOOD; the burst
    holds one calibration. *)
Lemma calibration_once_witness :
  m_granularity
    (this (final (CheckTimeGranularity
                    (mkSt (Sim.thread UNKNOWN []) (Sim.mkEnv [] true 0 5000)))))
    = BAD /\
  m_granularity
    (this (final (CheckTimeGranularity
                    (mkSt (Sim.thread UNKNOWN []) (Sim.mkEnv [] true 0 2500)))))
    = GOOD /\
  length (filter is_calibration (history (run Sim.burst Sim.machine0)))
    = 1%nat.
Proof.
  split; [ | split].
  - refine (proj1 (proj1 (proj1 (proj2 calibration_once)
                            Sim_reads_whole_milliseconds
                            (mkSt (Sim.thread UNKNOWN [])
                                  (Sim.mkEnv [] true 0 5000))) _)).
    vm_compute. discriminate.
  - refine (proj1 (proj2 (proj1 (proj2 calibration_once)
                            Sim_reads_whole_milliseconds
                            (mkSt (Sim.thread UNKNOWN [])
                                  (Sim.mkEnv [] true 0 2500))) _)).
    reflexivity.
  - exact (proj2 (proj2 (proj2 (proj2 calibration_once))) 100 23000 Sim.env0
                 (run Sim.burst Sim.machine0) burst_reachable).
Defined.

(** C4 as it is worded: the granularity is BAD whenever more than 3 ms
    have passed between the two readings of the clock.  It does not hold.
    A sleep of 1000 us that overshoots by 2500 us takes 3500 us, more than
    3 ms; its reading in whole milliseconds is 3, not more than the
    threshold, and the granularity is GOOD. *)
Lemma calibration_reads_whole_milliseconds :
  ~ (forall st : St Sim.Env,
       let c1 := clock_CurrentTime (env st) in
       let c2 := clock_CurrentTime (sys_usleep 1000 (snd c1)) in
       TimeStamp_sub (fst c2) (fst c1) > 3000 ->
       m_granularity (this (final (CheckTimeGranularity st))) = BAD).
Proof.
  intros H.
  specialize (H (mkSt (Sim.thread UNKNOWN []) (Sim.mkEnv [] true 0 2500))).
  cbv zeta in H. assert (E : GOOD = BAD) by (apply H; reflexivity).
  discriminate E.
Qed.

(** GOOD: the break asserted is held for 100 us and the break cleared is
    followed by 16 us.  BAD: the steps do not sleep, and the turn sleeps
    the frame time and nothing else. *)
Lemma hold_delays_witness :
  events (transmit Sim.fresh (Sim.state GOOD Sim.frame1 [])) =
    [EvSetBreak true true; EvUsleep 100; EvSetBreak false true; EvUsleep 16;
     EvWrite DmxBuffer_new true] /\
  events (transmit Sim.fresh (Sim.state BAD Sim.frame1 [])) =
    [EvSetBreak true true; EvSetBreak false true;
     EvWrite DmxBuffer_new true] /\
  (exists post',
     [EvUsleep 100; EvSetBreak false true; EvUsleep 16;
      EvWrite DmxBuffer_new true] = EvUsleep 100 :: post') /\
  filter is_usleep (events (Run_cycle Sim.fresh (Sim.state BAD Sim.frame1 [])))
    = [EvUsleep 23000].
Proof.
  split; [ | split; [ | split]].
  - exact (proj1 (hold_delays Sim.fresh (Sim.state GOOD Sim.frame1 []))).
  - exact (proj1 (hold_delays Sim.fresh (Sim.state BAD Sim.frame1 []))).
  - exact (proj1 (proj1 (proj2 (hold_delays Sim.fresh
                                  (Sim.state GOOD Sim.frame1 [])))
                        eq_refl)
                 [] _ eq_refl).
  - apply (proj2 (proj2 (hold_delays Sim.fresh (Sim.state BAD Sim.frame1 [])))).
    discriminate.
Defined.

(** [WriteDMX(frame1)] on the machine just started: six moves of the
    application thread and the call has returned [true]. *)
Lemma WriteDMX_publishes_witness :
  run (repeat RunApplication (length Sim.frame1 + 3))
      (step (CallWriteDMX Sim.frame1) Sim.machine0) =
    mkMachine (set_buffer Sim.frame1 (obj Sim.machine0)) None None P_entry
              (locals Sim.machine0) A_idle Sim.env0
              [Published Sim.frame1 true].
Proof.
  exact (proj1 (proj2 WriteDMX_publishes) Sim.frame1
               (step (CallWriteDMX Sim.frame1) Sim.machine0)
               eq_refl eq_refl).
Defined.

(** Two seconds after the last report the statistics are logged; half a
    millisecond after it they are not. *)
Lemma housekeeping_report_witness :
  events (housekeeping (mkLocals [] 1 2 3 7 0 0)
            (mkSt (Sim.thread GOOD []) (Sim.mkEnv [] true 2000000 0)))
    = [EvCurrentTime 2000000; EvInfoStats 7 1 2 3] /\
  events (housekeeping (mkLocals [] 1 2 3 7 0 0)
            (mkSt (Sim.thread GOOD []) (Sim.mkEnv [] true 500 0)))
    = [EvCurrentTime 500].
Proof.
  split.
  - refine (proj1 (proj1 (housekeeping_report (mkLocals [] 1 2 3 7 0 0)
                            (mkSt (Sim.thread GOOD [])
                                  (Sim.mkEnv [] true 2000000 0))) _)).
    simpl. lia.
  - refine (proj1 (proj2 (housekeeping_report (mkLocals [] 1 2 3 7 0 0)
                            (mkSt (Sim.thread GOOD [])
                                  (Sim.mkEnv [] true 500 0))) _)).
    simpl. lia.
Defined.

(** [Stop] sets the flag, and the output thread entering [Run] afterwards
    leaves it set. *)
Lemma term_flag_monotone_witness :
  m_term (obj (run Sim.stop Sim.machine0)) = true /\
  m_term (obj (step RunOutput (run Sim.stop Sim.machine0))) = true.
Proof.
  split.
  - exact (proj1 (proj2 (proj2 (proj2 term_flag_monotone)))
                 (step CallStop Sim.machine0) eq_refl eq_refl).
  - exact (proj1 (proj2 (proj2 term_flag_monotone))
                 RunOutput (run Sim.stop Sim.machine0) eq_refl).
Defined.

(** ** The further theorems at work on the simulated platform *)

(** A thread stopped before it ran: the calibration, the look at the
    widget, the clock, and no turn. *)
Lemma Run_after_Stop_witness :
  result (Run 5 Sim.stopped_state) = Some tt /\
  events (Run 5 Sim.stopped_state) =
    [EvCurrentTime 0; EvUsleep 1000; EvCurrentTime 1000;
     EvInfoGranularity GOOD; EvIsOpen true; EvCurrentTime 1000] /\
  env (final (Run 5 Sim.stopped_state)) = Sim.mkEnv [] true 1000 0.
Proof. exact (Run_after_Stop 4 Sim.stopped_state eq_refl). Defined.

(** The widget cannot be set up: the first turn asserts the break all the
    same. *)
Lemma Run_ignores_SetupOutput_witness :
  exists t a rest,
    events (Run 1 Dead.state) =
      [EvCurrentTime 0; EvUsleep 1000; EvCurrentTime 0; EvInfoGranularity GOOD]
      ++ EvIsOpen false :: EvSetupOutput false :: EvCurrentTime t
         :: EvSetBreak true a :: rest.
Proof. exact (Run_ignores_SetupOutput 0 Dead.state eq_refl eq_refl). Defined.

(** A widget whose first [SetBreak(true)] fails: 44 turns, 44 calls of
    [SetBreak(true)], and [Run] has not returned. *)
Lemma Run_goes_on_witness :
  result (Run 44 (Sim.state UNKNOWN [] [false])) = None /\
  length
    (filter is_break_start (events (Run 44 (Sim.state UNKNOWN [] [false]))))
    = 44%nat.
Proof. exact (Run_goes_on 44 (Sim.state UNKNOWN [] [false]) eq_refl). Defined.


(** The one report of the 44 turns: one failed [SetBreak(true)] before
    it, and it says so. *)
Lemma reports_count_failures_witness :
  exists pre,
    events (Run 44 (Sim.state UNKNOWN [] [false])) =
      pre ++ [EvInfoStats 0 1 0 0] /\
    (1, 0, 0) = failures_since_report pre.
Proof.
  exists (firstn 310 (events (Run 44 (Sim.state UNKNOWN [] [false])))).
  assert (E : events (Run 44 (Sim.state UNKNOWN [] [false])) =
              firstn 310 (events (Run 44 (Sim.state UNKNOWN [] [false])))
              ++ [EvInfoStats 0 1 0 0])
    by (vm_compute; reflexivity).
  split; [exact E | ].
  refine (reports_count_failures 44 (Sim.state UNKNOWN [] [false]) _
            _ 0 1 0 0 [] E).
  unfold INT_MAX. simpl. lia.
Defined.

(** Two turns on a widget that accepts every call: the frame sleep of the
    first turn lies between the two writes. *)
Lemma frames_are_spaced_witness :
  In (EvUsleep 23000)
     [EvUsleep 23000; EvCurrentTime 24116; EvSetBreak true true;
      EvUsleep 100; EvSetBreak false true; EvUsleep 16].
Proof.
  exact (frames_are_spaced 2 (Sim.state GOOD Sim.frame1 [])
           [EvCurrentTime 0; EvUsleep 1000; EvCurrentTime 1000;
            EvInfoGranularity GOOD; EvIsOpen true; EvCurrentTime 1000;
            EvSetBreak true true; EvUsleep 100; EvSetBreak false true;
            EvUsleep 16]
           Sim.frame1 true
           [EvUsleep 23000; EvCurrentTime 24116; EvSetBreak true true;
            EvUsleep 100; EvSetBreak false true; EvUsleep 16]
           Sim.frame1 true
           [EvUsleep 23000; EvCurrentTime 47232] eq_refl).
Defined.

Lemma stop_then_run_reachable :
  reachable 100 23000 Sim.env0 (run Sim.stop_then_run Sim.machine0).
Proof. exists Sim.stop_then_run. reflexivity. Qed.

(** [Stop], then the output thread through [Run]: it has left with the
    flag set, and stays out while [Join] returns. *)
Lemma Run_exit_is_final_witness :
  m_term (obj (run Sim.stop_then_run Sim.machine0)) = true /\
  pacer (run [RunApplication; RunOutput] (run Sim.stop_then_run Sim.machine0))
    = P_exit.
Proof.
  destruct (Run_exit_is_final 100 23000 Sim.env0
              (run Sim.stop_then_run Sim.machine0)
              stop_then_run_reachable eq_refl) as [Ht Hs].
  split; [exact Ht | exact (proj1 (Hs [RunApplication; RunOutput]))].
Defined.

(** The flag is set while the output thread holds the mark after break:
    the turn is finished, its frame is written, and no other. *)
Lemma one_write_after_flag_witness :
  (count_writes
     (history (run (repeat RunOutput 20) (run Sim.stop_in_turn Sim.machine0)))
   <= 0 + 1)%nat.
Proof.
  exact (one_write_after_flag (run Sim.stop_in_turn Sim.machine0)
           (repeat RunOutput 20) eq_refl).
Defined.

Lemma stop_at_flag_reachable :
  reachable 100 23000 Sim.env0 (run Sim.stop_at_flag Sim.machine0).
Proof. exists Sim.stop_at_flag. reflexivity. Qed.

(** [Stop] finds [m_term_mutex] taken by the output thread's look at the
    flag and waits; the output thread can move. *)
Lemma no_deadlock_witness :
  app (step RunApplication (run Sim.stop_at_flag Sim.machine0)) = A_stop_lock /\
  pacer (step RunOutput (run Sim.stop_at_flag Sim.machine0)) <> P_read_term.
Proof.
  split; [reflexivity | ].
  refine (proj2 (no_deadlock 100 23000 Sim.env0
                   (run Sim.stop_at_flag Sim.machine0) stop_at_flag_reachable)
                _ eq_refl).
  discriminate.
Defined.

(** The output thread looks at the flag inside [m_term_mutex]: the move
    adds no call to the history. *)
Lemma no_call_inside_mutex_witness :
  m_term_mutex (run Sim.stop_at_flag Sim.machine0) = Some OutputThread /\
  filter is_ext (history (step RunOutput (run Sim.stop_at_flag Sim.machine0)))
    = filter is_ext (history (run Sim.stop_at_flag Sim.machine0)).
Proof.
  split; [reflexivity | ].
  refine (proj1 (no_call_inside_mutex 100 23000 Sim.env0
                   (run Sim.stop_at_flag Sim.machine0) stop_at_flag_reachable)
                _).
  left. reflexivity.
Defined.

Lemma stop_reachable :
  reachable 100 23000 Sim.env0 (run Sim.stop Sim.machine0).
Proof. exists Sim.stop. reflexivity. Qed.

(** [Stop] waits in [Join] for an output thread that has not entered
    [Run]: three moves of the output thread, and [Join] returns. *)
Lemma Stop_returns_witness :
  pacer (run (repeat RunOutput 3) (run Sim.stop Sim.machine0)) = P_exit /\
  exists pre r post,
    history (run (repeat RunOutput 3 ++ [RunApplication])
                 (run Sim.stop Sim.machine0)) =
      history (run Sim.stop Sim.machine0)
      ++ pre ++ Ext (EvJoin r) :: Stopped r :: post.
Proof.
  refine (proj2 (Stop_returns 100 23000 Sim.env0 (run Sim.stop Sim.machine0)
                   (repeat RunOutput 3) stop_reachable eq_refl _)).
  vm_compute. lia.
Defined.

(** On the burst the output thread is in its first turn: the granularity
    is GOOD or BAD. *)
Lemma granularity_known_witness :
  m_granularity (obj (run Sim.burst Sim.machine0)) = GOOD \/
  m_granularity (obj (run Sim.burst Sim.machine0)) = BAD.
Proof.
  destruct (granularity_known 100 23000 Sim.env0
              (run Sim.burst Sim.machine0) burst_reachable)
    as [[H _] | [_ H]]; [ | exact H].
  vm_compute in H. discriminate H.
Defined.

(** The sleeps of the burst: 1000, the break of 100, the mark of 16. *)
Lemma sleeps_are_configured_witness :
  m_breakt (obj (run Sim.burst Sim.machine0)) = 100 /\
  m_malft (obj (run Sim.burst Sim.machine0)) = 23000 /\
  Forall (is_configured_sleep 100 23000) (history (run Sim.burst Sim.machine0)).
Proof.
  exact (sleeps_are_configured 100 23000 Sim.env0
           (run Sim.burst Sim.machine0) burst_reachable).
Defined.

Lemma two_frames_reachable :
  reachable 100 23000 Sim.env0 (run Sim.two_frames Sim.machine0).
Proof. exists Sim.two_frames. reflexivity. Qed.

(** Two frames published and sent in two turns: the first write carries
    a frame published no later than the frame of the second. *)
Lemma frames_in_order_witness :
  exists i j,
    (i <= j)%nat /\
    nth_error (published_frames (history (run Sim.two_frames Sim.machine0))) i
      = Some Sim.frame1 /\
    nth_error (published_frames (history (run Sim.two_frames Sim.machine0))) j
      = Some Sim.frame2.
Proof.
  refine (frames_in_order 100 23000 Sim.env0
            (run Sim.two_frames Sim.machine0) two_frames_reachable
            [Published Sim.frame1 true;
             Ext (EvCurrentTime 0); Ext (EvUsleep 1000);
             Ext (EvCurrentTime 1000); Ext (EvInfoGranularity GOOD);
             Ext (EvIsOpen true); Ext (EvCurrentTime 1000); Acquired;
             Ext (EvSetBreak true true); Ext (EvUsleep 100);
             Ext (EvSetBreak false true); Ext (EvUsleep 16)]
            Sim.frame1 true
            [Ext (EvUsleep 23000); Ext (EvCurrentTime 24116);
             Published Sim.frame2 true; Acquired;
             Ext (EvSetBreak true true); Ext (EvUsleep 100);
             Ext (EvSetBreak false true); Ext (EvUsleep 16)]
            Sim.frame2 true [] _).
  vm_compute. reflexivity.
Defined.
